(** * Quality Control Cockpit: inspection query service and image fetch

    A shallow embedding of the inspection query endpoint
    ([App2/app.py: get_inspections], [App1/app.py: load_inspections]),
    of the image operations ([stream_image], [load_image_from_volume],
    [ImageLoaderThread], [PhotoLoader]) and of the Lakebase query wrapper
    ([App2/services/lakebase.py: Lakebase.query]). *)

From Stdlib Require Import ZArith List String Ascii Bool Lia QArith.
From Stdlib Require Import Sorting.Sorted Sorting.Permutation.
From Stdlib Require Import DecimalString.
Import ListNotations.

Local Open Scope Z_scope.
Local Open Scope string_scope.

(** ** Python helpers *)

(** Truthiness of an [Optional[str]] argument: [None] and [""] are falsy. *)
Definition truthy (o : option string) : bool :=
  match o with
  | None => false
  | Some s => negb (s =? "")
  end.

(** [str(n)] for an integer. *)
Definition py_str_int (n : Z) : string :=
  NilZero.string_of_int (Z.to_int n).

(** ** Data model *)

(** A row of [serverless_opm_catalog.opm.inspections]; every column is
    non-null except [defect_type].  [timestamp] is an instant in seconds,
    [date] a calendar date in ISO form. *)
Record InspectionRecord := mkInspection {
  inspection_id : string;
  factory_id : string;
  camera_id : string;
  timestamp : Z;
  image_path : string;
  prediction : string;
  confidence_score : Q;
  defect_type : option string;
  inference_time_ms : Z;
  model_version : string;
  date : string
}.

(** A row of [serverless_opm_catalog.opm.factories]. *)
Record Factory := mkFactory {
  f_factory_id : string;
  f_region : string;
  f_cameras : list string
}.

(** The query parameters of [get_inspections] besides the page request.
    [load_inspections] takes the same ones except [region]. *)
Record FilterSet := mkFilters {
  region : option string;
  factory : option string;
  camera : option string;
  prediction_filter : option string;
  defect_type_filter : option string;
  search : option string;
  date_from : option string;
  date_to : option string
}.

Definition no_filters : FilterSet :=
  mkFilters None None None None None None None None.

(** ** Building the WHERE clause *)

(** One entry of [where_clauses].  The source appends the rendered text;
    the constructor keeps the column and the value apart so that the Row
    Store model below can give the entry its meaning. *)
Inductive Clause :=
| FactoryEq (v : string)
| CameraEq (v : string)
| PredictionEq (v : string)
| DefectTypeEq (v : string)
| InspectionIdLike (v : string)
| DateGe (v : string)
| DateLe (v : string).

(** The f-string appended for each entry. *)
Definition render_clause (c : Clause) : string :=
  match c with
  | FactoryEq v => "factory_id = '" ++ v ++ "'"
  | CameraEq v => "camera_id = '" ++ v ++ "'"
  | PredictionEq v => "prediction = '" ++ v ++ "'"
  | DefectTypeEq v => "defect_type = '" ++ v ++ "'"
  | InspectionIdLike v => "inspection_id LIKE '%" ++ v ++ "%'"
  | DateGe v => "date >= '" ++ v ++ "'"
  | DateLe v => "date <= '" ++ v ++ "'"
  end.

(** [if x: where_clauses.append(...)] *)
Definition clause_if (o : option string) (mk : string -> Clause) : list Clause :=
  match o with
  | Some v => if truthy o then [mk v] else []
  | None => []
  end.

(** [if defect_type and defect_type != "All": ...] *)
Definition defect_clause (o : option string) : list Clause :=
  match o with
  | Some v => if truthy o && negb (v =? "All") then [DefectTypeEq v] else []
  | None => []
  end.

(** The list [where_clauses] after the seven [if] statements.  [region]
    is not consulted here. *)
Definition where_clauses (f : FilterSet) : list Clause :=
  clause_if (factory f) FactoryEq
  ++ clause_if (camera f) CameraEq
  ++ clause_if (prediction_filter f) PredictionEq
  ++ defect_clause (defect_type_filter f)
  ++ clause_if (search f) InspectionIdLike
  ++ clause_if (date_from f) DateGe
  ++ clause_if (date_to f) DateLe.

(** [" AND ".join(where_clauses) if where_clauses else "1=1"] *)
Definition where_sql_of (cs : list Clause) : string :=
  match cs with
  | [] => "1=1"
  | _ => concat " AND " (map render_clause cs)
  end.

Definition where_sql (f : FilterSet) : string := where_sql_of (where_clauses f).

(** ** Statements sent to the Row Store *)

(** What a statement asks for.  The Row Store model answers on this
    structure; the text is what the source hands to [Warehouse.query]. *)
Inductive Stmt :=
| CountQuery (wh : list Clause)
| DataQuery (wh : list Clause) (limit offset : Z)
| StatsQuery (wh : list Clause)
| StatsRegionQuery (rgn : string) (wh : list Clause).

Record Statement := mkStatement {
  text : string;
  meaning : Stmt
}.

Definition nl : string := String (ascii_of_nat 10) EmptyString.
Definition ind8 : string := "        ".
Definition ind12 : string := "            ".
Definition ind16 : string := "                ".
Definition ind20 : string := "                    ".

Definition inspections_name : string := "serverless_opm_catalog.opm.inspections".
Definition factories_name : string := "serverless_opm_catalog.opm.factories".

Definition count_text (wsql : string) : string :=
  nl ++ ind12 ++ "SELECT COUNT(*) as count"
  ++ nl ++ ind12 ++ "FROM " ++ inspections_name
  ++ nl ++ ind12 ++ "WHERE " ++ wsql
  ++ nl ++ ind8.

Definition data_text (wsql : string) (per_page offset : Z) : string :=
  nl ++ ind12 ++ "SELECT "
  ++ nl ++ ind16 ++ "inspection_id,"
  ++ nl ++ ind16 ++ "factory_id,"
  ++ nl ++ ind16 ++ "camera_id,"
  ++ nl ++ ind16 ++ "timestamp,"
  ++ nl ++ ind16 ++ "image_path,"
  ++ nl ++ ind16 ++ "prediction,"
  ++ nl ++ ind16 ++ "confidence_score,"
  ++ nl ++ ind16 ++ "defect_type,"
  ++ nl ++ ind16 ++ "inference_time_ms,"
  ++ nl ++ ind16 ++ "model_version,"
  ++ nl ++ ind16 ++ "date"
  ++ nl ++ ind12 ++ "FROM " ++ inspections_name
  ++ nl ++ ind12 ++ "WHERE " ++ wsql
  ++ nl ++ ind12 ++ "ORDER BY timestamp DESC"
  ++ nl ++ ind12 ++ "LIMIT " ++ py_str_int per_page ++ " OFFSET " ++ py_str_int offset
  ++ nl ++ ind8.

(** The statistics statement without a region.  [a] is the indentation
    of the closing quotes and [b] that of the first line: the two apps
    differ only there. *)
Definition stats_text (a b c : string) (wsql : string) : string :=
  nl ++ b ++ "SELECT "
  ++ nl ++ c ++ "COUNT(*) as total,"
  ++ nl ++ c ++ "SUM(CASE WHEN prediction = 'OK' THEN 1 ELSE 0 END) as ok_count,"
  ++ nl ++ c ++ "SUM(CASE WHEN prediction = 'KO' THEN 1 ELSE 0 END) as ko_count"
  ++ nl ++ b ++ "FROM " ++ inspections_name
  ++ nl ++ b ++ "WHERE " ++ wsql
  ++ nl ++ a.

Definition stats_region_text (rgn wsql : string) : string :=
  nl ++ ind16 ++ "SELECT "
  ++ nl ++ ind20 ++ "COUNT(*) as total,"
  ++ nl ++ ind20 ++ "SUM(CASE WHEN i.prediction = 'OK' THEN 1 ELSE 0 END) as ok_count,"
  ++ nl ++ ind20 ++ "SUM(CASE WHEN i.prediction = 'KO' THEN 1 ELSE 0 END) as ko_count"
  ++ nl ++ ind16 ++ "FROM " ++ inspections_name ++ " i"
  ++ nl ++ ind16 ++ "JOIN " ++ factories_name ++ " f ON i.factory_id = f.factory_id"
  ++ nl ++ ind16 ++ "WHERE f.region = '" ++ rgn ++ "' AND " ++ wsql
  ++ nl ++ ind12.

Definition count_query (cs : list Clause) : Statement :=
  mkStatement (count_text (where_sql_of cs)) (CountQuery cs).

Definition data_query (cs : list Clause) (per_page offset : Z) : Statement :=
  mkStatement (data_text (where_sql_of cs) per_page offset)
              (DataQuery cs per_page offset).

(** ** Row Store model *)

(** The warehouse is an external collaborator that receives nothing but
    the statement text.  It is modelled by its two tables and by what it
    makes of the text:
    - [where_holds] is the store's own reading of a WHERE text as a
      condition on a row of the inspections table, and [join_holds] on a
      row of the join with the factories table.  Nothing is assumed
      about them (quotes, LIKE wildcards and date literals inside the
      interpolated values mean whatever the store takes them to mean),
      except that the same text is read the same way in every statement
      and that [1=1] holds of every row;
    - [int_max] is the largest number the store accepts after LIMIT and
      OFFSET;
    - [fails] tells the executions that raise for any other reason
      (a text the store cannot read, network, authentication, time-out).
    The order of [inspections_table] is the order in which the store
    happens to scan its rows; SQL leaves it unspecified. *)
Record Warehouse := mkWarehouse {
  inspections_table : list InspectionRecord;
  factories_table : list Factory;
  where_holds : string -> InspectionRecord -> bool;
  join_holds : string -> InspectionRecord -> Factory -> bool;
  int_max : Z;
  fails : Stmt -> bool
}.

(** Result rows are dicts keyed by column name; the three possible key
    sets are kept as three constructors.  [None] in an aggregate column
    is SQL NULL, delivered to Python as [None]. *)
Inductive Row :=
| CountRow (count : Z)
| DataRow (r : InspectionRecord)
| StatsRow (total : Z) (ok_count ko_count : option Z).

(** The store's reading of [WHERE wsql] on a row. *)
Definition selects (w : Warehouse) (wsql : string) (r : InspectionRecord) : bool :=
  if wsql =? "1=1" then true else where_holds w wsql r.

(** The rows the store selects for the WHERE text built from [cs]. *)
Definition selected (w : Warehouse) (cs : list Clause) : list InspectionRecord :=
  filter (selects w (where_sql_of cs)) (inspections_table w).

(** [ORDER BY timestamp DESC]: rows with equal timestamps stay in scan
    order, whatever that is. *)
Fixpoint insert_desc (r : InspectionRecord) (l : list InspectionRecord)
  : list InspectionRecord :=
  match l with
  | [] => [r]
  | y :: l' =>
      if (timestamp y <=? timestamp r)%Z then r :: y :: l'
      else y :: insert_desc r l'
  end.

Fixpoint order_by_timestamp_desc (l : list InspectionRecord)
  : list InspectionRecord :=
  match l with
  | [] => []
  | r :: l' => insert_desc r (order_by_timestamp_desc l')
  end.

(** [COUNT( * )] and [SUM(CASE WHEN prediction = p THEN 1 ELSE 0 END)];
    [SUM] over no row is NULL. *)
Definition count_where (p : InspectionRecord -> bool) (l : list InspectionRecord) : Z :=
  Z.of_nat (List.length (filter p l)).

Definition sum_case (p : string) (l : list InspectionRecord) : option Z :=
  match l with
  | [] => None
  | _ => Some (count_where (fun r => prediction r =? p) l)
  end.

Definition stats_row (l : list InspectionRecord) : Row :=
  StatsRow (Z.of_nat (List.length l)) (sum_case "OK" l) (sum_case "KO" l).

(** The WHERE text of the joined statistics statement. *)
Definition region_where (rgn wsql : string) : string :=
  "f.region = '" ++ rgn ++ "' AND " ++ wsql.

(** [inspections i JOIN factories f ON i.factory_id = f.factory_id
    WHERE ...]: one joined row per pair the store selects. *)
Definition selected_in_region (w : Warehouse) (rgn : string) (cs : list Clause)
  : list InspectionRecord :=
  flat_map (fun i =>
    map (fun _ => i)
        (filter (fun f => (factory_id i =? f_factory_id f)
                          && join_holds w (region_where rgn (where_sql_of cs)) i f)
                (factories_table w)))
    (inspections_table w).

Definition is_factory_eq (c : Clause) : bool :=
  match c with
  | FactoryEq _ => true
  | _ => false
  end.

(** Statements the store rejects: a LIMIT or OFFSET that is negative or
    beyond its integer range, and in the joined statement the
    unqualified [factory_id], which both joined tables have. *)
Definition rejected (w : Warehouse) (q : Stmt) : bool :=
  match q with
  | DataQuery _ limit offset =>
      (limit <? 0)%Z || (offset <? 0)%Z
      || (int_max w <? limit)%Z || (int_max w <? offset)%Z
  | StatsRegionQuery _ cs => existsb is_factory_eq cs
  | _ => false
  end.

Definition answer (w : Warehouse) (q : Stmt) : list Row :=
  match q with
  | CountQuery cs =>
      [CountRow (Z.of_nat (List.length (selected w cs)))]
  | DataQuery cs limit offset =>
      map DataRow
          (firstn (Z.to_nat limit)
             (skipn (Z.to_nat offset)
                (order_by_timestamp_desc (selected w cs))))
  | StatsQuery cs =>
      [stats_row (selected w cs)]
  | StatsRegionQuery rgn cs =>
      [stats_row (selected_in_region w rgn cs)]
  end.

(** [Warehouse.query(sql_query)]: the rows, or [None] when it raises. *)
Definition Warehouse_query (w : Warehouse) (q : Statement) : option (list Row) :=
  if fails w (meaning q) || rejected w (meaning q) then None
  else Some (answer w (meaning q)).

(** ** Result envelope *)

(** One formatted inspection.  [row.get(k)] without a default gives
    [None] for an absent key.  [i_timestamp] is the instant whose
    rendering [%Y-%m-%d %H:%M:%S] the source emits ([None] for the empty
    string); the rendering itself is presentation and is not modelled. *)
Record Inspection := mkOut {
  i_inspection_id : option string;
  i_factory_id : option string;
  i_camera_id : option string;
  i_timestamp : option Z;
  i_image_path : option string;
  i_prediction : option string;
  i_confidence_score : Q;
  i_defect_type : option string;
  i_inference_time_ms : Z;
  i_model_version : option string;
  i_date : string
}.

Record Pagination := mkPagination {
  p_page : Z;
  p_per_page : Z;
  p_total_count : Z;
  p_total_pages : Z
}.

Record Stats := mkStats {
  s_total : Z;
  s_filtered : Z;
  s_ok_count : Z;
  s_ko_count : Z
}.

Record Envelope := mkEnvelope {
  inspections : list Inspection;
  pagination : Pagination;
  stats : Stats
}.

(** ** Exceptions *)

Inductive Exc :=
| QueryFailed         (* raised by [Warehouse.query] *)
| TypeError           (* [int(None)] *)
| ZeroDivisionError   (* [x // 0] *)
| DownloadError (msg : string).  (* raised by the Files API *)

Definition M (A : Type) : Type := (A + Exc)%type.
Definition ret {A} (a : A) : M A := inl a.
Definition raise {A} (e : Exc) : M A := inr e.
Definition bind {A B} (m : M A) (k : A -> M B) : M B :=
  match m with
  | inl a => k a
  | inr e => inr e
  end.

Notation "x <- m ;; k" := (bind m (fun x => k))
  (at level 61, m at next level, right associativity).

Definition query (w : Warehouse) (q : Statement) : M (list Row) :=
  match Warehouse_query w q with
  | Some rows => ret rows
  | None => raise QueryFailed
  end.

(** [int(v)] on a column value: [None] is not convertible. *)
Definition py_int (v : option Z) : M Z :=
  match v with
  | Some n => ret n
  | None => raise TypeError
  end.

(** [a // b]: floor division. *)
Definition py_floordiv (a b : Z) : M Z :=
  if (b =? 0)%Z then raise ZeroDivisionError else ret (a / b)%Z.

(** [row.get(key, 0)] for the aggregate columns; an absent key gives the
    default, a NULL column gives [None]. *)
Definition get_count (r : Row) : option Z :=
  match r with
  | CountRow n => Some n
  | _ => Some 0%Z
  end.

Definition get_total (r : Row) : option Z :=
  match r with
  | StatsRow t _ _ => Some t
  | _ => Some 0%Z
  end.

Definition get_ok_count (r : Row) : option Z :=
  match r with
  | StatsRow _ ok _ => ok
  | _ => Some 0%Z
  end.

Definition get_ko_count (r : Row) : option Z :=
  match r with
  | StatsRow _ _ ko => ko
  | _ => Some 0%Z
  end.

(** The dict built for each row of the page. *)
Definition format_record (r : InspectionRecord) : Inspection :=
  mkOut (Some (inspection_id r)) (Some (factory_id r)) (Some (camera_id r))
        (Some (timestamp r)) (Some (image_path r)) (Some (prediction r))
        (confidence_score r) (defect_type r) (inference_time_ms r)
        (Some (model_version r)) (date r).

Definition format_row (r : Row) : Inspection :=
  match r with
  | DataRow d => format_record d
  | _ => mkOut None None None None None None 0%Q None 0%Z None ""
  end.

(** [total_pages = (total_count + per_page - 1) // per_page] *)
Definition total_pages (total_count per_page : Z) : M Z :=
  py_floordiv (total_count + per_page - 1) per_page.

(** [stats_result[0] if stats_result else {"total": 0, ...}] *)
Definition first_stats (stats_result : list Row) : Row :=
  match stats_result with
  | r :: _ => r
  | [] => StatsRow 0 (Some 0%Z) (Some 0%Z)
  end.

(** [int(count_result[0].get("count", 0)) if count_result else 0] *)
Definition first_count (count_result : list Row) : M Z :=
  match count_result with
  | r :: _ => py_int (get_count r)
  | [] => ret 0%Z
  end.

(** The tail shared by both apps: from the three results to the dict. *)
Definition package (page per_page total_count : Z) (rows : list Row)
           (stats_result : list Row) : M Envelope :=
  let st := first_stats stats_result in
  tp <- total_pages total_count per_page ;;
  t <- py_int (get_total st) ;;
  ok <- py_int (get_ok_count st) ;;
  ko <- py_int (get_ko_count st) ;;
  ret (mkEnvelope (map format_row rows)
                  (mkPagination page per_page total_count tp)
                  (mkStats t total_count ok ko)).

(** The three queries in the order the source issues them.  The two
    apps run the same lines and differ in the statistics statement
    [stats_q] only. *)
Definition query_block (w : Warehouse) (cs : list Clause) (stats_q : Statement)
           (page per_page : Z) : M Envelope :=
  count_result <- query w (count_query cs) ;;
  total_count <- first_count count_result ;;
  let offset := ((page - 1) * per_page)%Z in
  rows <- query w (data_query cs per_page offset) ;;
  stats_result <- query w stats_q ;;
  package page per_page total_count rows stats_result.

(** ** App2: the FastAPI endpoint *)

Module App2.

Definition stats_query (cs : list Clause) : Statement :=
  mkStatement (stats_text ind12 ind16 ind20 (where_sql_of cs)) (StatsQuery cs).

Definition stats_region_query (rgn : string) (cs : list Clause) : Statement :=
  mkStatement (stats_region_text rgn (where_sql_of cs)) (StatsRegionQuery rgn cs).

(** [if region: ... else: ...] *)
Definition choose_stats_query (f : FilterSet) : Statement :=
  match region f with
  | Some rgn =>
      if truthy (region f) then stats_region_query rgn (where_clauses f)
      else stats_query (where_clauses f)
  | None => stats_query (where_clauses f)
  end.

(** The body of the [try] block. *)
Definition try_block (w : Warehouse) (f : FilterSet) (page per_page : Z)
  : M Envelope :=
  query_block w (where_clauses f) (choose_stats_query f) page per_page.

Inductive Response :=
| OK (e : Envelope)
| HTTPException (status_code : Z).

(** [page: int = Query(1, ge=1)], [per_page: int = Query(8, ge=1, le=100)]:
    the framework answers 422 before the body runs. *)
Definition valid_page_request (page per_page : Z) : bool :=
  (1 <=? page)%Z && (1 <=? per_page)%Z && (per_page <=? 100)%Z.

Definition get_inspections (w : Warehouse) (f : FilterSet) (page per_page : Z)
  : Response :=
  if valid_page_request page per_page then
    match try_block w f page per_page with
    | inl e => OK e
    | inr _ => HTTPException 500
    end
  else HTTPException 422.

End App2.

(** ** App1: the Streamlit page *)

Module App1.


Definition stats_query (cs : list Clause) : Statement :=
  mkStatement (stats_text ind8 ind12 ind16 (where_sql_of cs)) (StatsQuery cs).

(** The body of the [try] block; [f]'s region is not a parameter here. *)
Definition try_block (w : Warehouse) (f : FilterSet) (page per_page : Z)
  : M Envelope :=
  query_block w (where_clauses f) (stats_query (where_clauses f)) page per_page.

(** The dict returned by the [except] branch. *)
Definition fallback (per_page : Z) : Envelope :=
  mkEnvelope [] (mkPagination 1 per_page 0 0) (mkStats 0 0 0 0).

Definition load_inspections (w : Warehouse) (f : FilterSet) (page per_page : Z)
  : Envelope :=
  match try_block w f page per_page with
  | inl e => e
  | inr _ => fallback per_page
  end.

End App1.

(** ** Blob Store and the image operations *)

Definition bytes : Type := list Byte.byte.

Definition ALLOWED_PREFIX : string :=
  "/Volumes/serverless_opm_catalog/opm/quality/images-highres/".

(** The Databricks Files API behind [WorkspaceClient().files.download]:
    the content of a path, or an exception. *)
Definition BlobStore : Type := string -> M bytes.

(** Calls that reached the Blob Store, oldest first. *)
Definition Log : Type := list string.

(** [try: body except Exception as e: handler(e)] over a computation that
    also records the store calls it made. *)
Definition try_except {A} (body : M A * Log) (handler : Exc -> M A) : M A * Log :=
  match fst body with
  | inl a => (inl a, snd body)
  | inr e => (handler e, snd body)
  end.

(** [w.files.download(path)] followed by reading the content. *)
Definition download (b : BlobStore) (path : string) : M bytes * Log :=
  (b path, [path]).

Module Image2.

(** The components of a POSIX path: the text between the slashes. *)
Fixpoint components_from (s cur : string) : list string :=
  match s with
  | EmptyString => [cur]
  | String c rest =>
      if (c =? "/")%char then cur :: components_from rest ""
      else components_from rest (cur ++ String c "")
  end.

(** [Path(path).name]: the last component, empty components and [.]
    being dropped. *)
Definition name (path : string) : string :=
  last (filter (fun c => negb (c =? "") && negb (c =? "."))
               (components_from path ""))
       "".

(** [s.rfind('.')], scanning from index [i]. *)
Fixpoint rfind_dot (s : string) (i : nat) (found : option nat) : option nat :=
  match s with
  | EmptyString => found
  | String c rest =>
      rfind_dot rest (S i) (if (c =? ".")%char then Some i else found)
  end.

(** [Path(path).suffix]: from the last dot of the name on, when that dot
    is neither the first nor the last character of the name. *)
Definition suffix (path : string) : string :=
  let n := name path in
  match rfind_dot n 0 None with
  | Some i =>
      if (0 <? i)%nat && (i <? String.length n - 1)%nat
      then substring i (String.length n - i) n
      else ""
  | None => ""
  end.

(** [str.lower()] on the letters A to Z, the only ones whose lower case
    occurs in the table below. *)
Definition lower_char (c : ascii) : ascii :=
  let n := nat_of_ascii c in
  if (65 <=? n)%nat && (n <=? 90)%nat then ascii_of_nat (n + 32) else c.

Fixpoint lower (s : string) : string :=
  match s with
  | EmptyString => EmptyString
  | String c rest => String (lower_char c) (lower rest)
  end.

(** [content_type_map.get(ext, 'application/octet-stream')] with
    [ext = Path(path).suffix.lower()]. *)
Definition content_type (path : string) : string :=
  let ext := lower (suffix path) in
  if ext =? ".jpg" then "image/jpeg"
  else if ext =? ".jpeg" then "image/jpeg"
  else if ext =? ".png" then "image/png"
  else if ext =? ".gif" then "image/gif"
  else if ext =? ".webp" then "image/webp"
  else "application/octet-stream".

Inductive Response :=
| StreamingResponse (media_type : string) (body : bytes)
| HTTPException (status_code : Z).

(** [stream_image(path)] of App2, with the store calls it made.  The
    parameter is declared [path: str = Query(...)], a required query
    parameter: a request without it ([None]) is answered 422 by the
    framework and the body does not run. *)
Definition stream_image (b : BlobStore) (path : option string) : Response * Log :=
  match path with
  | None => (HTTPException 422, [])
  | Some path =>
      if path =? "" then (HTTPException 400, [])
      else if negb (prefix ALLOWED_PREFIX path) then (HTTPException 400, [])
      else
        let r := download b path in
        match fst r with
        | inl content => (StreamingResponse (content_type path) content, snd r)
        | inr _ => (HTTPException 500, snd r)
        end
  end.

End Image2.

Module Image1.

(** [load_image_from_volume(image_path)] of App1: [Optional[bytes]], or
    an exception if one escaped, with the store calls it made. *)
Definition load_image_from_volume (b : BlobStore) (image_path : string)
  : M (option bytes) * Log :=
  if image_path =? "" then (ret None, [])
  else if negb (prefix ALLOWED_PREFIX image_path) then (ret None, [])
  else
    let r := download b image_path in
    try_except
      (bind (fst r) (fun image_bytes => ret (Some image_bytes)), snd r)
      (fun _ => ret None).

End Image1.

(** ** Loader threads *)

(** The attributes of an [ImageLoaderThread] or [PhotoLoader], and
    whether [run] is still executing. *)
Record Thread := mkThread {
  t_path : string;
  t_bytes : option bytes;
  t_error : option string;
  t_alive : bool
}.

(** [str(e)] *)
Definition str_exc (e : Exc) : string :=
  match e with
  | QueryFailed => "Query failed"
  | TypeError => "int() argument must be a string or a number"
  | ZeroDivisionError => "integer division or modulo by zero"
  | DownloadError msg => msg
  end.

(** [run]: [try: self.bytes = load(self.path) except Exception as e:
    self.error = str(e)]. *)
Definition run (load : string -> M (option bytes)) (t : Thread) : Thread :=
  match load (t_path t) with
  | inl v => mkThread (t_path t) v (t_error t) false
  | inr e => mkThread (t_path t) (t_bytes t) (Some (str_exc e)) false
  end.

(** What the page shows for a slot: the bytes, else the error, else
    nothing. *)
Inductive FetchResult :=
| Succeeded (b : bytes)
| Failed (error : string)
| TimedOut.

(** [if thread.photo_bytes: ... elif thread.error: ... else: ...]; empty
    bytes are falsy. *)
Definition display (t : Thread) : FetchResult :=
  match t_bytes t with
  | Some (x :: rest) => Succeeded (x :: rest)
  | _ =>
      match t_error t with
      | Some e => if e =? "" then TimedOut else Failed e
      | None => TimedOut
      end
  end.

(** Where the main thread is: creating and starting the loaders,
    joining them one after the other, then reading the slots. *)
Inductive Main :=
| Starting (todo : list string)
| Joining (k : nat)
| Rendering (k : nat) (shown : list FetchResult).

Definition Config : Type := (list Thread * Main)%type.

Definition set_nth {A} (i : nat) (x : A) (l : list A) : list A :=
  (firstn i l ++ x :: skipn (S i) l)%list.

Section Threads.

(** What a loader computes for a path, and the paths on which the fetch
    does not come back. *)
Variable load : string -> M (option bytes).
Variable stalls : string -> bool.

(** Interleavings of the main thread and the loaders.  A [join(timeout)]
    returns when its thread has finished or when the timeout elapses;
    the passing of time is not measured, so the second case is enabled
    whenever the thread is still alive. *)
Inductive step : Config -> Config -> Prop :=
| step_start p todo ths :
    step (ths, Starting (p :: todo))
         ((ths ++ [mkThread p None None true])%list, Starting todo)
| step_started ths :
    step (ths, Starting []) (ths, Joining 0)
| step_run i t ths m :
    nth_error ths i = Some t ->
    t_alive t = true ->
    stalls (t_path t) = false ->
    step (ths, m) (set_nth i (run load t) ths, m)
| step_join k t ths :
    nth_error ths k = Some t ->
    t_alive t = false ->
    step (ths, Joining k) (ths, Joining (S k))
| step_join_timeout k t ths :
    nth_error ths k = Some t ->
    t_alive t = true ->
    step (ths, Joining k) (ths, Joining (S k))
| step_joined ths :
    step (ths, Joining (List.length ths)) (ths, Rendering 0 [])
| step_render k t shown ths :
    nth_error ths k = Some t ->
    step (ths, Rendering k shown) (ths, Rendering (S k) (shown ++ [display t])%list).

Inductive steps : Config -> Config -> Prop :=
| steps_refl c : steps c c
| steps_step c1 c2 c3 : step c1 c2 -> steps c2 c3 -> steps c1 c3.

(** [fetchAll paths] may return [results]. *)
Definition fetchAll (paths : list string) (results : list FetchResult) : Prop :=
  exists ths,
    steps ([], Starting paths) (ths, Rendering (List.length ths) results).

(** What slot [p] may show: nothing yet, or what its own loader left. *)
Definition slot_of (p : string) (r : FetchResult) : Prop :=
  r = TimedOut \/
  (stalls p = false /\ r = display (run load (mkThread p None None true))).

End Threads.

(** The two loaders. *)
Definition load_image (b : BlobStore) (path : string) : M (option bytes) :=
  fst (Image1.load_image_from_volume b path).

(** [load_photo] of [simpleApps/app_multithreading.py]: no validation,
    no [try]. *)
Definition load_photo (b : BlobStore) (photo_path : string) : M (option bytes) :=
  bind (fst (download b photo_path)) (fun photo => ret (Some photo)).

(** ** Lakebase: the PostgreSQL wrapper *)

Module Lakebase.

(** Transaction status of a psycopg2 connection. *)
Inductive TxStatus :=
| Idle            (* no transaction open *)
| InTransaction   (* a statement ran, nothing committed yet *)
| InError.        (* a statement failed; only rollback is accepted *)

Record Connection := mkConnection {
  closed : bool;
  tx : TxStatus
}.

(** The class attributes [query] reads and writes. *)
Record State := mkState {
  _connection : option Connection;
  _connection_time : option Z
}.

Definition _CONNECTION_TIMEOUT_MINUTES : Z := 59.

(** Calls made on the connection, oldest first. *)
Inductive Op :=
| OpConnect
| OpClose
| OpCursor
| OpExecute (sql : string)
| OpFetchall
| OpCommit
| OpRollback.

(** What the server does with a statement. *)
Inductive ExecOutcome :=
| ResultSet (rows : list (list (string * string)))
| NoResultSet          (* a statement that returns no rows to fetch *)
| SqlError             (* the statement is refused: the transaction fails *)
| ConnectionLost.      (* the link drops: the connection is closed *)

(** The world outside: the clock (seconds), whether a new connection
    can be made, and how the server reacts. *)
Record World := mkWorld {
  now : Z;
  env_ok : bool;
  connect_ok : bool;
  close_ok : bool;
  exec_outcome : string -> ExecOutcome;
  commit_ok : bool;
  rollback_ok : bool
}.

Inductive Error :=
| ValueError
| InterfaceError        (* the connection is already closed *)
| OperationalError      (* the link dropped *)
| ProgrammingError      (* the statement failed, or nothing to fetch *)
| InFailedSqlTransaction
| QueryFailed (cause : Error).   (* [Exception(f"Query failed: ...")] *)

(** State and trace threading with exceptions. *)
Definition L (A : Type) : Type := State * list Op -> (A + Error) * (State * list Op).

Definition lret {A} (a : A) : L A := fun s => (inl a, s).
Definition lraise {A} (e : Error) : L A := fun s => (inr e, s).
Definition lbind {A B} (m : L A) (k : A -> L B) : L B :=
  fun s =>
    match m s with
    | (inl a, s') => k a s'
    | (inr e, s') => (inr e, s')
    end.
Definition ltry {A} (m : L A) (handler : Error -> L A) : L A :=
  fun s =>
    match m s with
    | (inl a, s') => (inl a, s')
    | (inr e, s') => handler e s'
    end.
Definition get_state : L State := fun s => (inl (fst s), s).
Definition put_state (st : State) : L unit := fun s => (inl tt, (st, snd s)).
Definition emit (o : Op) : L unit := fun s => (inl tt, (fst s, (snd s ++ [o])%list)).

Notation "x <~ m ;; k" := (lbind m (fun x => k))
  (at level 61, m at next level, right associativity).
Notation "m ;;; k" := (lbind m (fun _ => k))
  (at level 61, right associativity).

Definition set_connection (c : Connection) : L unit :=
  st <~ get_state ;;
  put_state (mkState (Some c) (_connection_time st)).

(** [_is_connection_expired] *)
Definition _is_connection_expired (wd : World) (st : State) : bool :=
  match _connection_time st with
  | None => true
  | Some t => (_CONNECTION_TIMEOUT_MINUTES * 60 <? now wd - t)%Z
  end.

(** [_create_connection]: [ValueError] when a required environment
    variable is missing, else [psycopg2.connect], which raises or gives
    a fresh connection. *)
Definition _create_connection (wd : World) : L unit :=
  if negb (env_ok wd) then lraise ValueError
  else
    emit OpConnect ;;;
    if connect_ok wd then
      put_state (mkState (Some (mkConnection false Idle)) (Some (now wd)))
    else lraise OperationalError.

(** [connection.close()] inside [try: ... except Exception: pass] *)
Definition close_quietly (wd : World) (c : Connection) : L unit :=
  emit OpClose ;;;
  if close_ok wd then set_connection (mkConnection true (tx c))
  else lret tt.

(** [_ensure_connection] *)
Definition _ensure_connection (wd : World) : L unit :=
  st <~ get_state ;;
  match _connection st with
  | None => _create_connection wd
  | Some c =>
      if _is_connection_expired wd st then
        close_quietly wd c ;;; _create_connection wd
      else lret tt
  end.

(** The connection the class holds; [query] only reaches these calls
    after [_ensure_connection] returned. *)
Definition the_connection : L Connection :=
  st <~ get_state ;;
  match _connection st with
  | Some c => lret c
  | None => lraise InterfaceError
  end.

(** [connection.cursor(...)] *)
Definition cursor : L unit :=
  c <~ the_connection ;;
  emit OpCursor ;;;
  if closed c then lraise InterfaceError else lret tt.

(** [cursor.execute(sql_query)]: the result set the cursor then holds. *)
Definition execute (wd : World) (sql : string)
  : L (option (list (list (string * string)))) :=
  c <~ the_connection ;;
  emit (OpExecute sql) ;;;
  if closed c then lraise InterfaceError
  else
    match tx c with
    | InError => lraise InFailedSqlTransaction
    | _ =>
        match exec_outcome wd sql with
        | ResultSet rows =>
            set_connection (mkConnection false InTransaction) ;;; lret (Some rows)
        | NoResultSet =>
            set_connection (mkConnection false InTransaction) ;;; lret None
        | SqlError =>
            set_connection (mkConnection false InError) ;;; lraise ProgrammingError
        | ConnectionLost =>
            set_connection (mkConnection true (tx c)) ;;; lraise OperationalError
        end
    end.

(** [cursor.fetchall()] *)
Definition fetchall (held : option (list (list (string * string))))
  : L (list (list (string * string))) :=
  emit OpFetchall ;;;
  match held with
  | Some rows => lret rows
  | None => lraise ProgrammingError
  end.

(** [connection.commit()] *)
Definition commit (wd : World) : L unit :=
  c <~ the_connection ;;
  emit OpCommit ;;;
  if closed c then lraise InterfaceError
  else if commit_ok wd then set_connection (mkConnection false Idle)
  else set_connection (mkConnection true (tx c)) ;;; lraise OperationalError.

(** [connection.rollback()] *)
Definition rollback (wd : World) : L unit :=
  c <~ the_connection ;;
  emit OpRollback ;;;
  if closed c then lraise InterfaceError
  else if rollback_ok wd then set_connection (mkConnection false Idle)
  else set_connection (mkConnection true (tx c)) ;;; lraise OperationalError.

(** The body of the [try] block of [query]. *)
Definition try_block (wd : World) (sql_query : string)
  : L (list (list (string * string))) :=
  cursor ;;;
  held <~ execute wd sql_query ;;
  rows <~ fetchall held ;;
  commit wd ;;;
  lret rows.

(** The [except] branch: [if cls._connection: cls._connection.rollback()]
    then [raise Exception(...) from e]. *)
Definition except_block {A} (wd : World) (e : Error) : L A :=
  st <~ get_state ;;
  match _connection st with
  | Some _ => rollback wd
  | None => lret tt
  end ;;;
  lraise (QueryFailed e).

(** [Lakebase.query(sql_query)] *)
Definition query (wd : World) (sql_query : string)
  : L (list (list (string * string))) :=
  _ensure_connection wd ;;;
  ltry (try_block wd sql_query) (except_block wd).

(** No transaction is pending on the connection the class holds. *)
Definition settled (st : State) : Prop :=
  match _connection st with
  | None => True
  | Some c => closed c = true \/ tx c = Idle
  end.

End Lakebase.

(** * Properties *)

(** ** Lists and the ORDER BY model *)

Lemma length_insert_desc r l :
  List.length (insert_desc r l) = S (List.length l).
Proof.
  induction l as [|y l IH]; simpl; [reflexivity|].
  destruct (timestamp y <=? timestamp r)%Z; simpl; congruence.
Qed.

Lemma length_order_by l :
  List.length (order_by_timestamp_desc l) = List.length l.
Proof.
  induction l as [|r l IH]; simpl; [reflexivity|].
  rewrite length_insert_desc; congruence.
Qed.

(** [a] comes no later than [b] in a descending listing. *)
Definition ts_ge (a b : InspectionRecord) : Prop :=
  (timestamp b <= timestamp a)%Z.

Lemma insert_desc_In r l x :
  In x (insert_desc r l) -> x = r \/ In x l.
Proof.
  induction l as [|y l IH]; simpl.
  - intros [H|[]]; auto.
  - destruct (timestamp y <=? timestamp r)%Z; simpl.
    + intros [H|[H|H]]; auto.
    + intros [H|H]; auto. destruct (IH H); auto.
Qed.

Lemma insert_desc_sorted r l :
  StronglySorted ts_ge l -> StronglySorted ts_ge (insert_desc r l).
Proof.
  induction 1 as [|y l Hs IH Hall]; simpl.
  - constructor; constructor.
  - destruct (timestamp y <=? timestamp r)%Z eqn:E.
    + apply Z.leb_le in E. constructor.
      * constructor; assumption.
      * constructor; [exact E|].
        rewrite Forall_forall in Hall |- *. intros x Hx.
        specialize (Hall x Hx). unfold ts_ge in *. lia.
    + apply Z.leb_gt in E. constructor; [assumption|].
      rewrite Forall_forall in Hall |- *. intros x Hx.
      destruct (insert_desc_In _ _ _ Hx) as [->|Hin].
      * unfold ts_ge. lia.
      * auto.
Qed.

Lemma order_by_sorted l : StronglySorted ts_ge (order_by_timestamp_desc l).
Proof.
  induction l as [|r l IH]; simpl; [constructor|].
  apply insert_desc_sorted, IH.
Qed.

Lemma StronglySorted_skipn {A} (R : A -> A -> Prop) n l :
  StronglySorted R l -> StronglySorted R (skipn n l).
Proof.
  revert l. induction n as [|n IH]; intros l H; simpl; [assumption|].
  destruct l as [|x l]; [constructor|].
  apply IH. inversion H; assumption.
Qed.

Lemma In_firstn {A} n (l : list A) x : In x (firstn n l) -> In x l.
Proof.
  revert l. induction n as [|n IH]; intros [|y l]; simpl; try tauto.
  intros [H|H]; [left; exact H | right; apply IH, H].
Qed.

Lemma StronglySorted_firstn {A} (R : A -> A -> Prop) n l :
  StronglySorted R l -> StronglySorted R (firstn n l).
Proof.
  revert l. induction n as [|n IH]; intros l H; simpl; [constructor|].
  destruct l as [|x l]; [constructor|].
  inversion H as [|? ? Hs Hall]; subst. constructor; [auto|].
  rewrite Forall_forall in Hall |- *. intros y Hy.
  apply Hall. eapply In_firstn; eauto.
Qed.

Lemma StronglySorted_map {A B} (R : A -> A -> Prop) (S : B -> B -> Prop)
      (g : A -> B) l :
  (forall a b, R a b -> S (g a) (g b)) ->
  StronglySorted R l -> StronglySorted S (map g l).
Proof.
  intros HRS. induction 1 as [|x l Hs IH Hall]; simpl; constructor; auto.
  rewrite Forall_forall in Hall |- *. intros y Hy.
  apply in_map_iff in Hy. destruct Hy as (a & <- & Ha). auto.
Qed.

(** ** The query block *)

(** The rows of one page, as the store answers the data statement. *)
Definition page_rows (w : Warehouse) (cs : list Clause) (page per_page : Z)
  : list InspectionRecord :=
  firstn (Z.to_nat per_page)
    (skipn (Z.to_nat ((page - 1) * per_page))
       (order_by_timestamp_desc (selected w cs))).

(** The number of rows the store selects for the WHERE text of [cs]. *)
Definition matched_count (w : Warehouse) (cs : list Clause) : Z :=
  Z.of_nat (List.length (selected w cs)).

(** [total_pages] is the ceiling of [total_count / per_page]. *)
Definition is_ceiling (total_count per_page pages : Z) : Prop :=
  ((pages - 1) * per_page < total_count <= pages * per_page)%Z.

Lemma map_format_row rs :
  map format_row (map DataRow rs) = map format_record rs.
Proof. rewrite map_map. reflexivity. Qed.

Lemma query_block_inl w cs sq page per_page e :
  query_block w cs sq page per_page = inl e ->
  exists srow t ok ko,
    per_page <> 0%Z /\
    (0 <= per_page)%Z /\ (0 <= (page - 1) * per_page)%Z /\
    Warehouse_query w sq = Some srow /\
    get_total (first_stats srow) = Some t /\
    get_ok_count (first_stats srow) = Some ok /\
    get_ko_count (first_stats srow) = Some ko /\
    e = mkEnvelope (map format_record (page_rows w cs page per_page))
          (mkPagination page per_page (matched_count w cs)
             ((matched_count w cs + per_page - 1) / per_page))
          (mkStats t (matched_count w cs) ok ko).
Proof.
  unfold query_block, query, Warehouse_query. simpl.
  destruct (fails w (CountQuery cs)); simpl; [discriminate|].
  destruct (fails w (DataQuery cs per_page ((page - 1) * per_page))); simpl;
    [discriminate|].
  destruct (per_page <? 0)%Z eqn:E1; simpl; [discriminate|].
  destruct ((page - 1) * per_page <? 0)%Z eqn:E2; simpl; [discriminate|].
  apply Z.ltb_ge in E1, E2.
  destruct ((int_max w <? per_page)%Z
            || (int_max w <? (page - 1) * per_page)%Z); simpl; [discriminate|].
  destruct (fails w (meaning sq) || rejected w (meaning sq)); simpl; [discriminate|].
  unfold package, total_pages, py_floordiv.
  destruct (per_page =? 0)%Z eqn:E3; simpl; [discriminate|].
  apply Z.eqb_neq in E3.
  destruct (get_total (first_stats (answer w (meaning sq)))) as [t|] eqn:Et;
    simpl; [|discriminate].
  destruct (get_ok_count (first_stats (answer w (meaning sq)))) as [ok|] eqn:Eok;
    simpl; [|discriminate].
  destruct (get_ko_count (first_stats (answer w (meaning sq)))) as [ko|] eqn:Eko;
    simpl; [|discriminate].
  intros H. injection H as <-.
  exists (answer w (meaning sq)), t, ok, ko.
  rewrite map_format_row. repeat split; auto.
Qed.

Lemma matched_count_nonneg w cs : (0 <= matched_count w cs)%Z.
Proof. unfold matched_count. lia. Qed.

Lemma floordiv_ceiling n d :
  (0 <= n)%Z -> (1 <= d)%Z ->
  is_ceiling n d ((n + d - 1) / d) /\ ((n + d - 1) / d = 0 <-> n = 0)%Z.
Proof.
  intros Hn Hd. unfold is_ceiling.
  pose proof (Z.div_mod (n + d - 1) d ltac:(lia)) as Hdm.
  pose proof (Z.mod_pos_bound (n + d - 1) d ltac:(lia)) as Hr.
  set (q := ((n + d - 1) / d)%Z) in *.
  set (r := ((n + d - 1) mod d)%Z) in *.
  assert (Hq : (0 <= q)%Z) by (subst q; apply Z.div_pos; lia).
  split; [split; nia|].
  split; intros H.
  - rewrite H in Hdm. lia.
  - subst n. subst q. apply Z.div_small. lia.
Qed.

(** The pagination block is coherent: a non-negative count, the ceiling
    as page count, and no page exactly when there is no record. *)
Definition pagination_ok (p : Pagination) : Prop :=
  (0 <= p_total_count p)%Z /\
  is_ceiling (p_total_count p) (p_per_page p) (p_total_pages p) /\
  (p_total_pages p = 0 <-> p_total_count p = 0)%Z.

Lemma query_block_pagination w cs sq page per_page e :
  query_block w cs sq page per_page = inl e ->
  pagination e =
    mkPagination page per_page (matched_count w cs)
      ((matched_count w cs + per_page - 1) / per_page)
  /\ (0 <= per_page)%Z /\ per_page <> 0%Z.
Proof.
  intros H. apply query_block_inl in H.
  destruct H as (srow & t & ok & ko & H0 & H1 & _ & _ & _ & _ & _ & ->).
  simpl. auto.
Qed.

Lemma App2_get_inspections_OK w f page per_page e :
  App2.get_inspections w f page per_page = App2.OK e ->
  App2.try_block w f page per_page = inl e /\
  (1 <= page)%Z /\ (1 <= per_page <= 100)%Z.
Proof.
  unfold App2.get_inspections, App2.valid_page_request.
  destruct (1 <=? page)%Z eqn:E1; simpl; [|discriminate].
  destruct (1 <=? per_page)%Z eqn:E2; simpl; [|discriminate].
  destruct (per_page <=? 100)%Z eqn:E3; simpl; [|discriminate].
  apply Z.leb_le in E1, E2, E3.
  destruct (App2.try_block w f page per_page) as [e'|x]; [|discriminate].
  intros H. injection H as ->. auto.
Qed.

Lemma App1_load_inspections_cases w f page per_page :
  App1.try_block w f page per_page = inl (App1.load_inspections w f page per_page)
  \/ App1.load_inspections w f page per_page = App1.fallback per_page.
Proof.
  unfold App1.load_inspections.
  destruct (App1.try_block w f page per_page); auto.
Qed.

(** C1. For every query result the pagination block has
    [total_pages = ceil(total_count / per_page)], and [total_pages = 0]
    exactly when [total_count = 0]: for the formula
    [(total_count + per_page - 1) // per_page] itself, for every envelope
    [get_inspections] returns, and for every envelope [load_inspections]
    returns (the fallback of its [except] branch included). *)
Theorem total_pages_is_ceiling :
  (forall total_count per_page, (0 <= total_count)%Z -> (1 <= per_page)%Z ->
     exists tp, total_pages total_count per_page = inl tp /\
                is_ceiling total_count per_page tp /\
                (tp = 0 <-> total_count = 0)%Z)
  /\ (forall w f page per_page e,
        App2.get_inspections w f page per_page = App2.OK e ->
        pagination_ok (pagination e))
  /\ (forall w f page per_page, (1 <= per_page)%Z ->
        pagination_ok (pagination (App1.load_inspections w f page per_page))).
Proof.
  split; [|split].
  - intros n d Hn Hd. exists ((n + d - 1) / d)%Z.
    unfold total_pages, py_floordiv.
    destruct (d =? 0)%Z eqn:E; [apply Z.eqb_eq in E; lia|].
    split; [reflexivity|]. apply floordiv_ceiling; assumption.
  - intros w f page per_page e H.
    apply App2_get_inspections_OK in H. destruct H as (H & _ & Hpp).
    apply query_block_pagination in H. destruct H as (-> & _ & _).
    unfold pagination_ok. simpl.
    split; [apply matched_count_nonneg|].
    apply floordiv_ceiling; [apply matched_count_nonneg | lia].
  - intros w f page per_page Hpp.
    destruct (App1_load_inspections_cases w f page per_page) as [H|H].
    + apply query_block_pagination in H. destruct H as (-> & _ & _).
      unfold pagination_ok. simpl.
      split; [apply matched_count_nonneg|].
      apply floordiv_ceiling; [apply matched_count_nonneg | lia].
    + rewrite H. unfold pagination_ok, is_ceiling, App1.fallback.
      cbn [pagination p_total_count p_per_page p_total_pages]. lia.
Qed.

(** ** Page slices *)




(** The store answers the statement. *)
Definition answers (w : Warehouse) (q : Statement) : Prop :=
  exists rows, Warehouse_query w q = Some rows.


(** The envelope built from the three answers, [srows] being the rows
    the statistics statement aggregates. *)
Definition page_envelope (w : Warehouse) (f : FilterSet) (page per_page : Z)
           (srows : list InspectionRecord) : Envelope :=
  let cs := where_clauses f in
  mkEnvelope (map format_record (page_rows w cs page per_page))
    (mkPagination page per_page (matched_count w cs)
       ((matched_count w cs + per_page - 1) / per_page))
    (mkStats (Z.of_nat (List.length srows)) (matched_count w cs)
       (count_where (fun r => prediction r =? "OK") srows)
       (count_where (fun r => prediction r =? "KO") srows)).




Lemma sum_case_nonempty p l :
  l <> [] -> sum_case p l = Some (count_where (fun r => prediction r =? p) l).
Proof. destruct l; [contradiction|reflexivity]. Qed.

(** The block on a store that answers its three statements, the
    statistics statement aggregating the rows [srows]. *)
Lemma query_block_answered w f sq page per_page srows :
  (1 <= per_page)%Z ->
  answers w (count_query (where_clauses f)) ->
  answers w (data_query (where_clauses f) per_page ((page - 1) * per_page)) ->
  Warehouse_query w sq = Some [stats_row srows] ->
  srows <> [] ->
  query_block w (where_clauses f) sq page per_page
  = inl (page_envelope w f page per_page srows).
Proof.
  intros Hpp [r1 H1] [r2 H2] H3 Hne.
  unfold query_block, query. rewrite H1, H2, H3. simpl.
  unfold Warehouse_query in H1, H2. simpl in H1, H2.
  match type of H1 with (if ?b then _ else _) = _ =>
    destruct b; [discriminate|] end.
  match type of H2 with (if ?b then _ else _) = _ =>
    destruct b; [discriminate|] end.
  injection H1 as <-. injection H2 as <-.
  simpl. unfold package, total_pages, py_floordiv.
  assert (E : (per_page =? 0)%Z = false) by (apply Z.eqb_neq; lia).
  rewrite E. simpl. rewrite !(sum_case_nonempty _ _ Hne). simpl.
  rewrite map_format_row. reflexivity.
Qed.



(** ** Statistics *)










(** ** Ordering of the slice *)

(** [a] is listed before [b] only if it is not older. *)
Definition out_ge (a b : Inspection) : Prop :=
  match i_timestamp a, i_timestamp b with
  | Some x, Some y => (y <= x)%Z
  | _, _ => False
  end.

Lemma page_rows_sorted w cs page per_page :
  StronglySorted out_ge (map format_record (page_rows w cs page per_page)).
Proof.
  apply (StronglySorted_map ts_ge); [intros a b H; exact H|].
  unfold page_rows.
  apply StronglySorted_firstn, StronglySorted_skipn, order_by_sorted.
Qed.

Lemma query_block_sorted w cs sq page per_page e :
  query_block w cs sq page per_page = inl e ->
  StronglySorted out_ge (inspections e).
Proof.
  intros H. apply query_block_inl in H.
  destruct H as (srow & t & ok & ko & _ & _ & _ & _ & _ & _ & _ & ->).
  apply page_rows_sorted.
Qed.

(** C6, as the code has it.  The records of the returned slice are in
    non-increasing order of timestamp: every record is at least as
    recent as all those after it.  The statement asks for
    [ORDER BY timestamp DESC] only. *)
Theorem slice_sorted_by_timestamp :
  (forall w f page per_page e,
     App2.get_inspections w f page per_page = App2.OK e ->
     StronglySorted out_ge (inspections e))
  /\ (forall w f page per_page,
        StronglySorted out_ge (inspections (App1.load_inspections w f page per_page))).
Proof.
  split.
  - intros w f page per_page e H.
    apply App2_get_inspections_OK in H. destruct H as (H & _ & _).
    eapply query_block_sorted; exact H.
  - intros w f page per_page.
    destruct (App1_load_inspections_cases w f page per_page) as [H|H].
    + eapply query_block_sorted; exact H.
    + rewrite H. constructor.
Qed.

(** ** Statement texts *)





(** No field of the filter set is present: each is [None], empty, or for
    the defect type the sentinel ["All"]. *)
Definition all_absent (f : FilterSet) : Prop :=
  truthy (region f) = false /\
  where_clauses f = [].

(** The filter set whose only present field is [factory]. *)
Definition only_factory (v : string) : FilterSet :=
  mkFilters None (Some v) None None None None None None.



(** ** Region *)

(** The filter set with its region removed. *)
Definition without_region (f : FilterSet) : FilterSet :=
  mkFilters None (factory f) (camera f) (prediction_filter f)
            (defect_type_filter f) (search f) (date_from f) (date_to f).

(** The count and page statements are built without looking at the
    region; only the statistics statement carries it. *)
Lemma region_not_in_where_clauses f :
  where_clauses f = where_clauses (without_region f).
Proof. reflexivity. Qed.

(** ** Image operations *)

Lemma prefix_empty_path : prefix ALLOWED_PREFIX "" = false.
Proof. reflexivity. Qed.


(** The result of [load_image_from_volume], case by case. *)
Definition image_path_cases (b : BlobStore) (p : string) : M (option bytes) :=
  if p =? "" then ret None
  else if prefix ALLOWED_PREFIX p then
    match b p with
    | inl content => ret (Some content)
    | inr _ => ret None
    end
  else ret None.

Lemma image_path_cases_eq b p :
  fst (Image1.load_image_from_volume b p) = image_path_cases b p.
Proof.
  unfold Image1.load_image_from_volume, image_path_cases.
  destruct (p =? ""); [reflexivity|].
  destruct (prefix ALLOWED_PREFIX p); simpl; [|reflexivity].
  unfold try_except, download. simpl. destruct (b p); reflexivity.
Qed.

(** C10. [load_image_from_volume] never raises.  For an empty path, a
    path outside the allowed prefix and a failing fetch alike it returns
    [None]; an [ImageLoaderThread] running it leaves its [error]
    attribute untouched and its bytes at [None] in all three cases. *)
Theorem load_image_from_volume_never_raises :
  forall (b : BlobStore) (image_path : string),
    (exists v, fst (Image1.load_image_from_volume b image_path) = inl v)
    /\ (image_path = "" \/ prefix ALLOWED_PREFIX image_path = false
        \/ (exists e, b image_path = inr e) ->
        fst (Image1.load_image_from_volume b image_path) = inl None /\
        run (load_image b) (mkThread image_path None None true)
          = mkThread image_path None None false).
Proof.
  intros b p.
  assert (Hcases :
    image_path_cases b p = fst (Image1.load_image_from_volume b p)).
  { symmetry. apply image_path_cases_eq. }
  unfold image_path_cases in Hcases.
  split.
  - rewrite <- Hcases. unfold ret.
    destruct (p =? ""); [eauto|].
    destruct (prefix ALLOWED_PREFIX p); simpl; [|eauto].
    destruct (b p); simpl; eauto.
  - intros H.
    assert (Hnone : fst (Image1.load_image_from_volume b p) = inl None).
    { rewrite <- Hcases.
      destruct H as [H|[H|[e H]]].
      - subst p. reflexivity.
      - rewrite H. destruct (p =? ""); reflexivity.
      - destruct (p =? ""); [reflexivity|].
        destruct (prefix ALLOWED_PREFIX p); simpl; [|reflexivity].
        rewrite H. reflexivity. }
    split; [exact Hnone|].
    unfold run, load_image. simpl. rewrite Hnone. reflexivity.
Qed.

(** ** Lakebase.query *)

Module LakebaseFacts.
Import Lakebase.

(** What one call of [query] leaves behind, started with an empty trace. *)
Definition outcome (wd : World) (sql : string) (st : State) :=
  query wd sql (st, []).

(** The four calls of a successful [try] block, in order. *)
Definition commit_after_fetch (sql : string) (tr : list Op) : Prop :=
  exists pre, tr = (pre ++ [OpCursor; OpExecute sql; OpFetchall; OpCommit])%list.

(** The last call on the connection is [rollback()], after the cursor
    was asked for. *)
Definition rolled_back_last (tr : list Op) : Prop :=
  exists pre, tr = (pre ++ [OpRollback])%list /\ In OpCursor pre.

Ltac case_all :=
  repeat match goal with
         | |- context [if ?b then _ else _] => destruct b eqn:?
         | |- context [match exec_outcome ?w ?s with _ => _ end] =>
             destruct (exec_outcome w s) eqn:?
         end.

Ltac finish :=
  first
    [ split; [reflexivity|]; split;
      [ match goal with
        | |- commit_after_fetch _ ?tr =>
            exists (firstn (List.length tr - 4) tr); reflexivity
        end
      | reflexivity ]
    | left; split; [reflexivity | simpl; intuition discriminate]
    | right; split;
      [ match goal with
        | |- rolled_back_last ?tr =>
            exists (removelast tr); simpl; split;
            [reflexivity | intuition congruence]
        end
      | intros; try discriminate; reflexivity ] ].

(** C9. Started with no transaction pending, [query] ends with none
    pending, whether it returns or raises.  When it returns, the calls
    end with cursor, execute, fetchall, commit, and the connection is
    open and idle.  When it raises, either [_ensure_connection] failed
    and nothing was executed, or [rollback()] is the last call made on
    the connection before the exception leaves; if the exception is the
    wrapped [Query failed] one, the rollback went through and the
    connection is open and idle. *)
Theorem query_commits_or_rolls_back :
  forall (wd : World) (sql : string) (st : State),
    settled st ->
    let out := outcome wd sql st in
    settled (fst (snd out)) /\
    match fst out with
    | inl rows =>
        exec_outcome wd sql = ResultSet rows /\
        commit_after_fetch sql (snd (snd out)) /\
        _connection (fst (snd out)) = Some (mkConnection false Idle)
    | inr e =>
        (fst (_ensure_connection wd (st, [])) = inr e /\
         ~ In (OpExecute sql) (snd (snd out)))
        \/ (rolled_back_last (snd (snd out)) /\
            forall cause, e = QueryFailed cause ->
              _connection (fst (snd out)) = Some (mkConnection false Idle))
    end.
Proof.
  intros wd sql [[[cl t]|] ct] Hs; unfold settled in Hs; simpl in Hs.
  - destruct cl, t; try (destruct Hs; discriminate);
      unfold outcome, query, _ensure_connection, _is_connection_expired,
        _create_connection, close_quietly, try_block, except_block,
        cursor, execute, fetchall, commit, rollback, the_connection,
        set_connection, ltry, lbind, lret, lraise, get_state, put_state,
        emit, settled; simpl.
    all: destruct ct as [t0|]; simpl; case_all; simpl.
    all: try (split; [solve [auto]|]).
    all: finish.
  - unfold outcome, query, _ensure_connection, _is_connection_expired,
        _create_connection, close_quietly, try_block, except_block,
        cursor, execute, fetchall, commit, rollback, the_connection,
        set_connection, ltry, lbind, lret, lraise, get_state, put_state,
        emit, settled; simpl.
    case_all; simpl.
    all: try (split; [solve [auto]|]).
    all: finish.
Qed.

End LakebaseFacts.

(** ** Loader threads *)

(** A loader as [ImageLoaderThread(path)] creates it. *)
Definition fresh (p : string) : Thread := mkThread p None None true.

Lemma set_nth_split {A} (l1 : list A) a x l2 :
  set_nth (List.length l1) x (l1 ++ a :: l2)%list = (l1 ++ x :: l2)%list.
Proof.
  unfold set_nth. induction l1 as [|b l1 IH]; simpl; [reflexivity|].
  simpl in IH. rewrite IH. reflexivity.
Qed.

Lemma firstn_S_nth {A} (l : list A) k x :
  nth_error l k = Some x -> firstn (S k) l = (firstn k l ++ [x])%list.
Proof.
  revert l. induction k as [|k IH]; intros [|y l] H; simpl in H; try discriminate.
  - injection H as ->. reflexivity.
  - change (firstn (S (S k)) (y :: l)) with (y :: firstn (S k) l).
    rewrite (IH l H). reflexivity.
Qed.

Lemma skipn_nth {A} (l : list A) k x :
  nth_error l k = Some x -> skipn k l = x :: skipn (S k) l.
Proof.
  revert l. induction k as [|k IH]; intros [|y l] H; simpl in H; try discriminate.
  - injection H as ->. reflexivity.
  - change (skipn (S k) (y :: l)) with (skipn k l).
    change (skipn (S (S k)) (y :: l)) with (skipn (S k) l).
    apply IH, H.
Qed.

Lemma steps_trans load stalls c1 c2 c3 :
  steps load stalls c1 c2 -> steps load stalls c2 c3 -> steps load stalls c1 c3.
Proof.
  induction 1 as [c|a b c Hab Hbc IH]; intros H; [exact H|].
  eapply steps_step; [exact Hab | exact (IH H)].
Qed.

Lemma run_path load t : t_path (run load t) = t_path t.
Proof. unfold run. destruct (load (t_path t)); reflexivity. Qed.

Lemma run_alive load t : t_alive (run load t) = false.
Proof. unfold run. destruct (load (t_path t)); reflexivity. Qed.

Lemma display_fresh p : display (fresh p) = TimedOut.
Proof. reflexivity. Qed.

Section ThreadFacts.

Variable load : string -> M (option bytes).
Variable stalls : string -> bool.

(** A loader is as created, or has run to its end on its own path. *)
Definition thread_ok (t : Thread) : Prop :=
  t = fresh (t_path t) \/
  (stalls (t_path t) = false /\ t = run load (fresh (t_path t))).

(** What holds of every configuration reached from the start. *)
Definition inv (paths : list string) (c : Config) : Prop :=
  Forall thread_ok (fst c) /\
  match snd c with
  | Starting todo => (map t_path (fst c) ++ todo)%list = paths
  | Joining _ => map t_path (fst c) = paths
  | Rendering k shown =>
      map t_path (fst c) = paths /\
      Forall2 (slot_of load stalls) (firstn k paths) shown
  end.

Lemma thread_ok_slot t : thread_ok t -> slot_of load stalls (t_path t) (display t).
Proof.
  intros [H|[Hs H]]; rewrite H at 2.
  - left. reflexivity.
  - right. split; [exact Hs|reflexivity].
Qed.

Lemma inv_step paths c c' :
  inv paths c -> step load stalls c c' -> inv paths c'.
Proof.
  intros [Hok Hm] Hstep. destruct Hstep; unfold inv; cbn [fst snd] in *.
  - split.
    + apply Forall_app. split; [exact Hok|]. constructor; [|constructor].
      left. reflexivity.
    + rewrite map_app, <- app_assoc. exact Hm.
  - split; [exact Hok|]. rewrite app_nil_r in Hm. exact Hm.
  - destruct (nth_error_split _ _ H) as (l1 & l2 & -> & <-).
    rewrite set_nth_split. split.
    + apply Forall_app in Hok. destruct Hok as [Hl1 Hrest].
      inversion Hrest as [|? ? Ht Hl2]; subst.
      apply Forall_app. split; [exact Hl1|]. constructor; [|exact Hl2].
      destruct Ht as [Ht|[_ Ht]].
      * right. rewrite run_path. split; [assumption|].
        rewrite Ht at 1. reflexivity.
      * rewrite Ht, run_alive in H0. discriminate.
    + destruct m; rewrite map_app in *; cbn [map] in *; rewrite run_path;
        exact Hm.
  - split; assumption.
  - split; assumption.
  - split; [exact Hok|]. split; [exact Hm|]. constructor.
  - destruct Hm as [Hp Hshown]. split; [exact Hok|]. split; [exact Hp|].
    assert (Hk : nth_error paths k = Some (t_path t)).
    { rewrite <- Hp. apply map_nth_error. exact H. }
    rewrite (firstn_S_nth _ _ _ Hk).
    apply Forall2_app; [exact Hshown|]. constructor; [|constructor].
    apply thread_ok_slot.
    rewrite Forall_forall in Hok. apply Hok. eapply nth_error_In; eauto.
Qed.

Lemma inv_steps paths c c' :
  inv paths c -> steps load stalls c c' -> inv paths c'.
Proof.
  intros Hinv Hsteps. induction Hsteps as [c|c1 c2 c3 H12 H23 IH]; [exact Hinv|].
  apply IH. eapply inv_step; eauto.
Qed.

(** Every result of [fetchAll] pairs each path, in order, with what its
    own slot may show. *)
Lemma fetchAll_sound paths results :
  fetchAll load stalls paths results ->
  Forall2 (slot_of load stalls) paths results.
Proof.
  intros [ths Hsteps].
  assert (Hinit : inv paths ([], Starting paths)).
  { split; [constructor|reflexivity]. }
  destruct (inv_steps _ _ _ Hinit Hsteps) as [_ [Hp Hshown]]. simpl in *.
  assert (Hlen : List.length ths = List.length paths).
  { rewrite <- Hp. symmetry. apply length_map. }
  rewrite Hlen, firstn_all in Hshown. exact Hshown.
Qed.

(** *** Runs that exist *)

Lemma start_all ths todo :
  steps load stalls (ths, Starting todo)
        ((ths ++ map fresh todo)%list, Joining 0).
Proof.
  revert ths. induction todo as [|p todo IH]; intros ths; simpl.
  - rewrite app_nil_r. eapply steps_step; [apply step_started|apply steps_refl].
  - eapply steps_step; [apply step_start|].
    replace (ths ++ fresh p :: map fresh todo)%list
      with ((ths ++ [fresh p]) ++ map fresh todo)%list
      by (rewrite <- app_assoc; reflexivity).
    apply IH.
Qed.

Lemma join_all ths n k :
  (k + n = List.length ths)%nat ->
  steps load stalls (ths, Joining k) (ths, Rendering 0 []).
Proof.
  revert k. induction n as [|n IH]; intros k Hk.
  - replace k with (List.length ths) by lia.
    eapply steps_step; [apply step_joined|apply steps_refl].
  - destruct (nth_error ths k) as [t|] eqn:E.
    + assert (Hnext : steps load stalls (ths, Joining (S k)) (ths, Rendering 0 []))
        by (apply IH; lia).
      destruct (t_alive t) eqn:Ea.
      * eapply steps_step; [eapply step_join_timeout; eauto|exact Hnext].
      * eapply steps_step; [eapply step_join; eauto|exact Hnext].
    + apply nth_error_None in E. lia.
Qed.

Lemma render_all ths n k shown :
  (k + n = List.length ths)%nat ->
  steps load stalls (ths, Rendering k shown)
        (ths, Rendering (List.length ths) (shown ++ map display (skipn k ths))%list).
Proof.
  revert k shown. induction n as [|n IH]; intros k shown Hk.
  - replace k with (List.length ths) by lia.
    rewrite skipn_all, app_nil_r. apply steps_refl.
  - destruct (nth_error ths k) as [t|] eqn:E.
    + eapply steps_step; [eapply step_render; exact E|].
      rewrite (skipn_nth _ _ _ E). cbn [map].
      replace (shown ++ display t :: map display (skipn (S k) ths))%list
        with ((shown ++ [display t]) ++ map display (skipn (S k) ths))%list
        by (rewrite <- app_assoc; reflexivity).
      apply IH. lia.
    + apply nth_error_None in E. lia.
Qed.

(** From any set of started loaders the main thread reaches the end
    and shows what each loader holds at that moment. *)
Lemma finish_from ths :
  steps load stalls (ths, Joining 0)
        (ths, Rendering (List.length ths) (map display ths)).
Proof.
  eapply steps_trans; [apply (join_all ths (List.length ths) 0); lia|].
  apply (render_all ths (List.length ths) 0 []). lia.
Qed.

(** The run in which no loader comes back in time. *)
Lemma fetchAll_all_timed_out paths :
  fetchAll load stalls paths (map (fun _ => TimedOut) paths).
Proof.
  exists (map fresh paths).
  eapply steps_trans; [apply (start_all [] paths)|]. simpl.
  replace (map (fun _ => TimedOut) paths) with (map display (map fresh paths))
    by (rewrite map_map; reflexivity).
  apply finish_from.
Qed.

(** The run in which the loader of slot [i] alone comes back. *)
Lemma fetchAll_only i p paths :
  nth_error paths i = Some p ->
  stalls p = false ->
  exists results,
    fetchAll load stalls paths results /\
    nth_error results i = Some (display (run load (fresh p))).
Proof.
  intros Hi Hs.
  destruct (nth_error_split _ _ Hi) as (l1 & l2 & -> & <-).
  set (ths := (map fresh l1 ++ run load (fresh p) :: map fresh l2)%list).
  exists (map display ths). split.
  - exists ths.
    eapply steps_trans; [apply (start_all [] (l1 ++ p :: l2))|]. simpl.
    eapply steps_step; [|apply finish_from].
    rewrite map_app. simpl.
    replace ths with
      (set_nth (List.length (map fresh l1)) (run load (fresh p))
               (map fresh l1 ++ fresh p :: map fresh l2)%list)
      by apply set_nth_split.
    eapply step_run; [|reflexivity|exact Hs].
    rewrite nth_error_app2 by lia. rewrite Nat.sub_diag. reflexivity.
  - unfold ths. rewrite map_app. simpl.
    rewrite nth_error_app2 by (rewrite !length_map; lia).
    rewrite !length_map, Nat.sub_diag. reflexivity.
Qed.

End ThreadFacts.

Lemma Forall2_nth_error {A B} (R : A -> B -> Prop) l1 l2 i a b :
  Forall2 R l1 l2 -> nth_error l1 i = Some a -> nth_error l2 i = Some b -> R a b.
Proof.
  intros H. revert i. induction H as [|x y l1 l2 Hxy H IH]; intros [|i] H1 H2;
    simpl in *; try discriminate.
  - injection H1 as <-. injection H2 as <-. exact Hxy.
  - eapply IH; eauto.
Qed.

Lemma run_agree load load' p :
  load' p = load p -> run load' (fresh p) = run load (fresh p).
Proof. intros H. unfold run. simpl. rewrite H. reflexivity. Qed.

(** ** Loader threads and the clock *)

(** [thread.join(timeout=10)] *)
Definition JOIN_TIMEOUT : Z := 10.

Section Timed.

(** What a loader computes for a path, and the time in seconds, counted
    from the moment the loaders were started, at which the loader at an
    index of the page comes back ([None]: never).  The loop that starts
    the loaders and the reading of the slots take no time. *)
Variable load : string -> M (option bytes).
Variable finish : nat -> option Z.

(** [thread.join(timeout=10)] on the thread at index [i], called at time
    [clock]: the time at which it returns, at once if the loader has
    finished, else when it finishes or when the ten seconds are over. *)
Definition join (clock : Z) (i : nat) : Z :=
  match finish i with
  | Some d => if (d <=? clock)%Z then clock else Z.min d (clock + JOIN_TIMEOUT)
  | None => (clock + JOIN_TIMEOUT)%Z
  end.

(** [for thread in threads: thread.join(timeout=10)] over [n] threads:
    the time at which the loop ends. *)
Definition join_threads (n : nat) : Z := fold_left join (seq 0 n) 0%Z.

(** The loader at index [i] has finished at time [t]. *)
Definition finished (t : Z) (i : nat) : bool :=
  match finish i with
  | Some d => (d <=? t)%Z
  | None => false
  end.

(** What the slot at index [i], whose path is [p], shows when read at
    time [t]. *)
Definition slot_at (t : Z) (i : nat) (p : string) : FetchResult :=
  if finished t i then display (run load (fresh p)) else TimedOut.

(** [enumerate(paths)] *)
Definition enumerate (paths : list string) : list (nat * string) :=
  combine (seq 0 (List.length paths)) paths.

(** The results of one page, read when the joins are over. *)
Definition fetchAll_timed (paths : list string) : list FetchResult :=
  map (fun ip => slot_at (join_threads (List.length paths)) (fst ip) (snd ip))
      (enumerate paths).

End Timed.

(** Every loader takes at least as long under [finish'] as under
    [finish]. *)
Definition slower (finish finish' : nat -> option Z) : Prop :=
  forall i,
    match finish i, finish' i with
    | Some d, Some d' => (d <= d')%Z
    | _, None => True
    | None, Some _ => False
    end.

Lemma join_ge finish c i : (c <= join finish c i)%Z.
Proof.
  unfold join, JOIN_TIMEOUT. destruct (finish i) as [d|]; [|lia].
  destruct (Z.leb_spec d c); lia.
Qed.

Lemma join_loop_ge finish l c : (c <= fold_left (join finish) l c)%Z.
Proof.
  revert c. induction l as [|i l IH]; intros c; simpl; [lia|].
  pose proof (join_ge finish c i). pose proof (IH (join finish c i)). lia.
Qed.

Lemma join_slower finish finish' c c' i :
  slower finish finish' -> (c <= c')%Z ->
  (join finish c i <= join finish' c' i)%Z.
Proof.
  intros Hs Hc. specialize (Hs i). unfold join, JOIN_TIMEOUT.
  destruct (finish i) as [d|], (finish' i) as [d'|]; try contradiction.
  - destruct (Z.leb_spec d c), (Z.leb_spec d' c'); lia.
  - destruct (Z.leb_spec d c); lia.
  - lia.
Qed.

Lemma join_loop_slower finish finish' l c c' :
  slower finish finish' -> (c <= c')%Z ->
  (fold_left (join finish) l c <= fold_left (join finish') l c')%Z.
Proof.
  intros Hs. revert c c'. induction l as [|i l IH]; intros c c' Hc; simpl;
    [exact Hc|].
  apply IH. apply join_slower; assumption.
Qed.

Lemma join_loop_reaches finish l c i d :
  finish i = Some d -> (d <= JOIN_TIMEOUT)%Z -> (0 <= c)%Z -> In i l ->
  (d <= fold_left (join finish) l c)%Z.
Proof.
  intros Hf Hd. revert c. induction l as [|x l IH]; intros c Hc Hin;
    [destruct Hin|]. simpl.
  destruct Hin as [->|Hin].
  - pose proof (join_loop_ge finish l (join finish c i)) as Hge.
    assert (d <= join finish c i)%Z; [|lia].
    unfold join. rewrite Hf. unfold JOIN_TIMEOUT in *.
    destruct (Z.leb_spec d c); lia.
  - apply IH; [|exact Hin]. pose proof (join_ge finish c x). lia.
Qed.

Lemma nth_error_enumerate_from (paths : list string) a i p :
  nth_error paths i = Some p ->
  nth_error (combine (seq a (List.length paths)) paths) i = Some ((a + i)%nat, p).
Proof.
  revert a i. induction paths as [|x paths IH]; intros a i H;
    [destruct i; discriminate H|].
  destruct i as [|i]; simpl in *.
  - injection H as ->. rewrite Nat.add_0_r. reflexivity.
  - rewrite (IH (S a) i H). do 2 f_equal. lia.
Qed.

Lemma fetchAll_timed_nth load finish paths i p :
  nth_error paths i = Some p ->
  nth_error (fetchAll_timed load finish paths) i
  = Some (slot_at load finish (join_threads finish (List.length paths)) i p).
Proof.
  intros H. unfold fetchAll_timed, enumerate.
  erewrite map_nth_error; [|apply nth_error_enumerate_from; exact H].
  reflexivity.
Qed.

Lemma length_fetchAll_timed load finish paths :
  List.length (fetchAll_timed load finish paths) = List.length paths.
Proof.
  unfold fetchAll_timed, enumerate.
  rewrite length_map, length_combine, length_seq. apply Nat.min_id.
Qed.

(** C7, as the code has it.  The results have the length and the order
    of the paths.  The slot at an index shows either nothing (timed out)
    or what the loader of the path at that same index left, and a loader
    that comes back within the ten seconds of a join is always shown,
    whatever the others do.  What one loader returns or raises changes
    no other slot, and loaders taking longer never make a result that
    was shown disappear.  The time-outs are not independent, though: the
    joins run one after the other, each with its own ten seconds, so a
    slot can depend on how long the other loaders take. *)
Theorem fetchAll_timed_slots :
  forall (load : string -> M (option bytes)) (finish : nat -> option Z)
         (paths : list string),
    List.length (fetchAll_timed load finish paths) = List.length paths
    /\ (forall i p, nth_error paths i = Some p ->
          exists r,
            nth_error (fetchAll_timed load finish paths) i = Some r /\
            (r = TimedOut \/ r = display (run load (fresh p))) /\
            (forall d, finish i = Some d -> (d <= JOIN_TIMEOUT)%Z ->
                       r = display (run load (fresh p))))
    /\ (forall load' i p,
          nth_error paths i = Some p -> load' p = load p ->
          nth_error (fetchAll_timed load' finish paths) i
          = nth_error (fetchAll_timed load finish paths) i)
    /\ (forall finish' i p,
          nth_error paths i = Some p -> finish' i = finish i ->
          slower finish finish' ->
          finished finish (join_threads finish (List.length paths)) i = true ->
          nth_error (fetchAll_timed load finish' paths) i
          = nth_error (fetchAll_timed load finish paths) i).
Proof.
  intros load finish paths. split; [apply length_fetchAll_timed|].
  split; [|split].
  - intros i p Hp. eexists. split; [apply fetchAll_timed_nth; exact Hp|].
    unfold slot_at. split.
    + destruct (finished finish (join_threads finish (List.length paths)) i); auto.
    + intros d Hf Hd.
      assert (Hfin : finished finish (join_threads finish (List.length paths)) i
                     = true).
      { unfold finished. rewrite Hf. apply Z.leb_le.
        apply (join_loop_reaches finish _ 0 i d Hf Hd); [lia|].
        apply in_seq. split; [lia|]. simpl.
        apply nth_error_Some. rewrite Hp. discriminate. }
      rewrite Hfin. reflexivity.
  - intros load' i p Hp Hl. rewrite !(fetchAll_timed_nth _ _ _ _ _ Hp).
    unfold slot_at. rewrite (run_agree load load' p Hl). reflexivity.
  - intros finish' i p Hp Hf Hs Hfin.
    rewrite !(fetchAll_timed_nth _ _ _ _ _ Hp). unfold slot_at.
    rewrite Hfin.
    assert (Hfin' : finished finish' (join_threads finish' (List.length paths)) i
                    = true).
    { unfold finished in *. rewrite Hf.
      destruct (finish i) as [d|]; [|discriminate Hfin].
      apply Z.leb_le in Hfin. apply Z.leb_le.
      pose proof (join_loop_slower finish finish' (seq 0 (List.length paths))
                    0 0 Hs (Z.le_refl 0)).
      unfold join_threads in *. lia. }
    rewrite Hfin'. reflexivity.
Qed.

(** * Worked examples *)

Definition sample_record (id fac : string) (ts : Z) (p : string) : InspectionRecord :=
  mkInspection id fac "CAM-01" ts
    "/Volumes/serverless_opm_catalog/opm/quality/images-highres/a.jpg"
    p (1 # 2) None 12 "v1" "2025-01-15".

(** How the sample store reads the WHERE texts of the examples: an
    equality on [factory_id] selects the rows of that factory, and the
    joined text with [1=1] the pairs of that region. *)
Definition sample_where (wsql : string) (r : InspectionRecord) : bool :=
  wsql =? "factory_id = '" ++ factory_id r ++ "'".

Definition sample_join (wsql : string) (i : InspectionRecord) (f : Factory) : bool :=
  wsql =? region_where (f_region f) "1=1".

(** Three inspections, two of them with the same timestamp and scanned
    in the order B, A; one factory in each of two regions; a store that
    takes 32-bit numbers after LIMIT and OFFSET and refuses nothing
    else. *)
Definition sample_store : Warehouse :=
  mkWarehouse
    [ sample_record "INSP-B" "EU-1" 5 "OK";
      sample_record "INSP-A" "US-1" 5 "KO";
      sample_record "INSP-C" "EU-1" 9 "OK" ]
    [ mkFactory "EU-1" "EU" ["CAM-01"]; mkFactory "US-1" "US" ["CAM-01"] ]
    sample_where sample_join 2147483647
    (fun _ => false).

Definition region_EU : FilterSet :=
  mkFilters (Some "EU") None None None None None None None.

Definition envelope_of (r : App2.Response) : Envelope :=
  match r with
  | App2.OK e => e
  | App2.HTTPException _ => App1.fallback 0
  end.

Definition sample_all : Envelope :=
  envelope_of (App2.get_inspections sample_store no_filters 1 8).


Definition sample_region : Envelope :=
  envelope_of (App2.get_inspections sample_store region_EU 1 8).

Lemma sample_all_OK :
  App2.get_inspections sample_store no_filters 1 8 = App2.OK sample_all.
Proof. reflexivity. Qed.



(** [per_page=8, page=3, total_count=20]: three pages. *)
Example total_pages_20_8 : total_pages 20 8 = inl 3%Z.
Proof. reflexivity. Qed.

Lemma total_pages_is_ceiling_witness :
  pagination_ok (pagination sample_all) /\
  pagination_ok (pagination (App1.load_inspections sample_store no_filters 1 8)) /\
  exists tp, total_pages 20 8 = inl tp /\ is_ceiling 20 8 tp /\
             (tp = 0 <-> 20 = 0)%Z.
Proof.
  destruct total_pages_is_ceiling as (H1 & H2 & H3).
  split; [apply (H2 sample_store no_filters 1%Z 8%Z); reflexivity|].
  split; [apply (H3 sample_store no_filters 1%Z 8%Z); lia|].
  apply (H1 20%Z 8%Z); lia.
Defined.




(** Page 5 of two-record pages over three records: past the last page,
    empty slice, pagination block intact. *)
Example beyond_last_page_example :
  App2.get_inspections sample_store no_filters 5 2
  = App2.OK (mkEnvelope [] (mkPagination 5 2 3 2) (mkStats 3 3 2 1)).
Proof. reflexivity. Qed.



(** The value reaches the statement unescaped. *)
Example injected_text :
  where_sql (only_factory "x' OR '1'='1") = "factory_id = 'x' OR '1'='1'".
Proof. reflexivity. Qed.

(** C4 at the failing input: with only a region given, the WHERE clause
    of the count and page statements is [1=1] and they return the
    records of every region (three, the US one included), while the
    statistics statement joins on the region and counts two. *)
Theorem region_only_in_statistics :
  (forall f, where_clauses f = where_clauses (without_region f))
  /\ where_sql region_EU = "1=1"
  /\ meaning (App2.choose_stats_query region_EU) = StatsRegionQuery "EU" []
  /\ p_total_count (pagination sample_region) = 3%Z
  /\ map i_factory_id (inspections sample_region)
     = [Some "EU-1"; Some "EU-1"; Some "US-1"]
  /\ s_total (stats sample_region) = 2%Z.
Proof. repeat split. Qed.




(** C6 as stated: descending timestamps, equal ones by ascending
    [inspection_id]. *)
Definition tie_broken (a b : Inspection) : Prop :=
  match i_timestamp a, i_timestamp b, i_inspection_id a, i_inspection_id b with
  | Some x, Some y, Some ia, Some ib =>
      (y < x)%Z \/ (x = y /\ String.leb ia ib = true)
  | _, _, _, _ => False
  end.

(** INSP-B comes before INSP-A although both have timestamp 5. *)
Lemma tie_break_counterexample :
  ~ (forall w f page per_page e,
       App2.get_inspections w f page per_page = App2.OK e ->
       StronglySorted tie_broken (inspections e)).
Proof.
  intros H.
  pose proof (H sample_store no_filters 1%Z 8%Z sample_all sample_all_OK) as Hs.
  unfold sample_all in Hs. cbn in Hs.
  apply StronglySorted_inv in Hs. destruct Hs as [Hs _].
  apply StronglySorted_inv in Hs. destruct Hs as [_ Hall].
  apply Forall_inv in Hall.
  unfold tie_broken in Hall. cbn in Hall.
  destruct Hall as [Hlt|[_ Hleb]]; [lia|discriminate Hleb].
Qed.

Lemma slice_sorted_by_timestamp_witness :
  StronglySorted out_ge (inspections sample_all) /\
  StronglySorted out_ge
    (inspections (App1.load_inspections sample_store no_filters 1 8)).
Proof.
  destruct slice_sorted_by_timestamp as (H1 & H2).
  split.
  - apply (H1 sample_store no_filters 1%Z 8%Z). exact sample_all_OK.
  - apply H2.
Defined.

Definition good_path : string :=
  "/Volumes/serverless_opm_catalog/opm/quality/images-highres/a.jpg".

Definition missing_path : string :=
  "/Volumes/serverless_opm_catalog/opm/quality/images-highres/none.png".

(** A store holding one image. *)
Definition sample_blob : BlobStore :=
  fun p => if p =? good_path then inl [Byte.xff; Byte.xd8]
           else inr (DownloadError "not found").




(** Upper-case extensions are recognised; a name that is only an
    extension has no suffix. *)
Example content_type_upper :
  Image2.content_type "/Volumes/x/A.JPG" = "image/jpeg".
Proof. reflexivity. Qed.

Example content_type_dot_file :
  Image2.content_type "/Volumes/x/.png" = "application/octet-stream".
Proof. reflexivity. Qed.

(** A valid path whose fetch succeeds is streamed with its content type. *)
Example stream_image_good :
  Image2.stream_image sample_blob (Some good_path)
  = (Image2.StreamingResponse "image/jpeg" [Byte.xff; Byte.xd8], [good_path]).
Proof. reflexivity. Qed.

Lemma load_image_from_volume_never_raises_witness :
  fst (Image1.load_image_from_volume sample_blob missing_path) = inl None /\
  run (load_image sample_blob) (mkThread missing_path None None true)
  = mkThread missing_path None None false.
Proof.
  apply (proj2 (load_image_from_volume_never_raises sample_blob missing_path)).
  right. right. exists (DownloadError "not found"). reflexivity.
Defined.

(** A server that refuses the statement. *)
Definition refusing_world : Lakebase.World :=
  Lakebase.mkWorld 0 true true true (fun _ => Lakebase.SqlError) true true.

Definition no_connection : Lakebase.State := Lakebase.mkState None None.

Lemma query_commits_or_rolls_back_witness :
  Lakebase.settled
    (fst (snd (LakebaseFacts.outcome refusing_world "SELECT 1" no_connection))) /\
  LakebaseFacts.rolled_back_last
    (snd (snd (LakebaseFacts.outcome refusing_world "SELECT 1" no_connection))).
Proof.
  pose proof (LakebaseFacts.query_commits_or_rolls_back
                refusing_world "SELECT 1" no_connection I) as H.
  cbv zeta in H. destruct H as [Hs Hr]. split; [exact Hs|].
  cbn in Hr. destruct Hr as [[Hbad _]|[Hr _]]; [discriminate Hbad|exact Hr].
Defined.

(** The calls of that run: connect, cursor, execute, rollback. *)
Example refused_statement_trace :
  LakebaseFacts.outcome refusing_world "SELECT 1" no_connection
  = (inr (Lakebase.QueryFailed Lakebase.ProgrammingError),
     (Lakebase.mkState (Some (Lakebase.mkConnection false Lakebase.Idle)) (Some 0%Z),
      [Lakebase.OpConnect; Lakebase.OpCursor; Lakebase.OpExecute "SELECT 1";
       Lakebase.OpRollback])).
Proof. reflexivity. Qed.

(** The first loader comes back before its join, the second one is
    still running when its join times out. *)
Lemma sample_run :
  fetchAll (load_image sample_blob) (fun _ => false)
           [good_path; missing_path]
           [Succeeded [Byte.xff; Byte.xd8]; TimedOut].
Proof.
  exists [run (load_image sample_blob) (fresh good_path); fresh missing_path].
  eapply steps_step; [apply step_start|].
  eapply steps_step; [apply step_start|].
  eapply steps_step; [apply step_started|].
  eapply steps_step;
    [apply (step_run _ _ 0 (fresh good_path)); reflexivity|].
  eapply steps_step;
    [apply (step_join _ _ 0 (run (load_image sample_blob) (fresh good_path)));
     reflexivity|].
  eapply steps_step;
    [apply (step_join_timeout _ _ 1 (fresh missing_path)); reflexivity|].
  eapply steps_step; [apply step_joined|].
  eapply steps_step;
    [apply (step_render _ _ 0 (run (load_image sample_blob) (fresh good_path)));
     reflexivity|].
  eapply steps_step;
    [apply (step_render _ _ 1 (fresh missing_path)); reflexivity|].
  apply steps_refl.
Qed.

(** The loader of the second image needs fifteen seconds; the first
    loader either never comes back or comes back after one second. *)
Definition first_stalls (i : nat) : option Z :=
  match i with
  | 1%nat => Some 15%Z
  | _ => None
  end.

Definition first_quick (i : nat) : option Z :=
  match i with
  | 1%nat => Some 15%Z
  | _ => Some 1%Z
  end.

Example stalled_first_item :
  fetchAll_timed (load_image sample_blob) first_stalls [missing_path; good_path]
  = [TimedOut; Succeeded [Byte.xff; Byte.xd8]].
Proof. reflexivity. Qed.

Example quick_first_item :
  fetchAll_timed (load_image sample_blob) first_quick [missing_path; good_path]
  = [TimedOut; TimedOut].
Proof. reflexivity. Qed.

(** Every loader comes back after one second. *)
Definition all_quick (i : nat) : option Z := Some 1%Z.

(** The second loader comes back after one second, the first never. *)
Definition first_never (i : nat) : option Z :=
  match i with
  | 1%nat => Some 1%Z
  | _ => None
  end.

(** The loader of the first path raises under [load_photo] and returns
    nothing under [load_image]; the slot of the second path is the same,
    and it is still the same when the first loader stalls. *)
Lemma fetchAll_timed_slots_witness :
  nth_error (fetchAll_timed (load_photo sample_blob) all_quick
                            [missing_path; good_path]) 1
  = Some (Succeeded [Byte.xff; Byte.xd8]) /\
  nth_error (fetchAll_timed (load_photo sample_blob) all_quick
                            [missing_path; good_path]) 1
  = nth_error (fetchAll_timed (load_image sample_blob) all_quick
                              [missing_path; good_path]) 1 /\
  nth_error (fetchAll_timed (load_image sample_blob) first_never
                            [missing_path; good_path]) 1
  = nth_error (fetchAll_timed (load_image sample_blob) all_quick
                              [missing_path; good_path]) 1.
Proof.
  destruct (fetchAll_timed_slots (load_image sample_blob) all_quick
              [missing_path; good_path]) as (_ & _ & Hload & Hslow).
  split; [reflexivity|]. split.
  - apply (Hload (load_photo sample_blob) 1%nat good_path); reflexivity.
  - apply (Hslow first_never 1%nat good_path); try reflexivity.
    intros [|[|i]]; simpl; try exact I. apply Z.le_refl.
Defined.

(** A stalled first loader also holds back the moment at which the page,
    and so the image of the second item, is shown: ten seconds instead
    of one. *)
Example stalled_item_delays_display :
  join_threads first_never 2 = 10%Z /\ join_threads all_quick 2 = 1%Z.
Proof. split; reflexivity. Qed.

(** C7 as stated: a slot depends on the behaviour of its own item only. *)
Definition slots_independent_as_stated : Prop :=
  forall (load : string -> M (option bytes)) (finish finish' : nat -> option Z)
         (paths : list string) i p,
    nth_error paths i = Some p -> finish' i = finish i ->
    nth_error (fetchAll_timed load finish' paths) i
    = nth_error (fetchAll_timed load finish paths) i.

(** With the first loader stalled the second join starts at ten seconds
    and the second image, ready at fifteen, is shown; with the first
    loader back after one second the second join gives up at eleven. *)
Lemma stalled_item_counterexample : ~ slots_independent_as_stated.
Proof.
  intros H.
  specialize (H (load_image sample_blob) first_stalls first_quick
                [missing_path; good_path] 1%nat good_path eq_refl eq_refl).
  vm_compute in H. discriminate H.
Qed.

(** * Further components *)

(** ** Warehouse: the SQL warehouse wrapper ([services/warehouse.py]) *)

Module WarehouseService.

(** A cell of [data_array]; [None] is a NULL. *)
Definition Cell : Type := option string.

(** A Python dict with string keys, in insertion order. *)
Definition Dict : Type := list (string * Cell).

(** [d[k] = v] *)
Fixpoint dict_set (k : string) (v : Cell) (d : Dict) : Dict :=
  match d with
  | [] => [(k, v)]
  | (k', v') :: d' =>
      if k' =? k then (k, v) :: d' else (k', v') :: dict_set k v d'
  end.

(** [d.get(k)]: [None] for an absent key; a present key may hold a NULL. *)
Fixpoint dict_get (k : string) (d : Dict) : option Cell :=
  match d with
  | [] => None
  | (k', v') :: d' => if k' =? k then Some v' else dict_get k d'
  end.

(** The inner loop [for i, col_name in enumerate(columns):
    row_dict[col_name] = row_array[i]], started at index [i] with the dict
    [d]; [None] is the [IndexError] of a row shorter than the columns. *)
Fixpoint fill_row (columns : list string) (i : nat) (row_array : list Cell)
         (d : Dict) : option Dict :=
  match columns with
  | [] => Some d
  | col_name :: rest =>
      match nth_error row_array i with
      | Some v => fill_row rest (S i) row_array (dict_set col_name v d)
      | None => None
      end
  end.

Definition row_to_dict (columns : list string) (row_array : list Cell)
  : option Dict :=
  fill_row columns 0 row_array [].

(** The outer loop over [data_array]. *)
Fixpoint rows_of (columns : list string) (data_array : list (list Cell))
  : option (list Dict) :=
  match data_array with
  | [] => Some []
  | row_array :: rest =>
      match row_to_dict columns row_array with
      | Some row_dict =>
          match rows_of columns rest with
          | Some rows => Some (row_dict :: rows)
          | None => None
          end
      | None => None
      end
  end.

(** What [execute_statement] hands back: [result.result.data_array],
    absent or empty when there is nothing to read, and the column names
    of the manifest. *)
Record StatementResponse := mkResponse {
  data_array : option (list (list Cell));
  columns : list string
}.

(** [if result.result and result.result.data_array: ...] *)
Definition extract_rows (r : StatementResponse) : option (list Dict) :=
  match data_array r with
  | None => Some []
  | Some [] => Some []
  | Some (row :: more) => rows_of (columns r) (row :: more)
  end.

(** The class attributes. *)
Record State := mkState {
  _client : bool;                   (* a client is held *)
  _warehouse_id : option string;
  _connection_time : option Z
}.

Definition _CONNECTION_TIMEOUT_MINUTES : Z := 59.

(** The environment variable, the clock (seconds) and the API, which
    answers a statement or raises. *)
Record World := mkWorld {
  DATABRICKS_WAREHOUSE_ID : option string;
  now : Z;
  execute_statement : string -> string -> option StatementResponse
}.

Inductive Error :=
| ValueError              (* the warehouse id is not configured *)
| QueryFailed.            (* [Exception(f"Query failed: ...")] *)

(** [_is_connection_expired] *)
Definition _is_connection_expired (wd : World) (st : State) : bool :=
  match _connection_time st with
  | None => true
  | Some t => (_CONNECTION_TIMEOUT_MINUTES * 60 <? now wd - t)%Z
  end.

(** [_create_connection]: the id is stored before it is tested; building
    the client itself is taken to succeed. *)
Definition _create_connection (wd : World) (st : State) : (unit + Error) * State :=
  let st1 := mkState (_client st) (DATABRICKS_WAREHOUSE_ID wd) (_connection_time st) in
  if truthy (DATABRICKS_WAREHOUSE_ID wd)
  then (inl tt, mkState true (DATABRICKS_WAREHOUSE_ID wd) (Some (now wd)))
  else (inr ValueError, st1).

(** [_ensure_connection] *)
Definition _ensure_connection (wd : World) (st : State) : (unit + Error) * State :=
  if negb (_client st) || _is_connection_expired wd st
  then _create_connection wd st
  else (inl tt, st).

(** [Warehouse.query(sql_query)] *)
Definition query (wd : World) (sql_query : string) (st : State)
  : (list Dict + Error) * State :=
  match _ensure_connection wd st with
  | (inr e, st') => (inr e, st')
  | (inl _, st') =>
      match _warehouse_id st' with
      | None => (inr QueryFailed, st')
      | Some wid =>
          match execute_statement wd wid sql_query with
          | None => (inr QueryFailed, st')
          | Some r =>
              match extract_rows r with
              | Some rows => (inl rows, st')
              | None => (inr QueryFailed, st')
              end
          end
      end
  end.

End WarehouseService.

(** ** App2: the filter options endpoint *)

Module FilterOptions.
Import WarehouseService.

(** Truthiness of [row.get(k)]: an absent key, a NULL and [""] are falsy. *)
Definition cell_truthy (v : option Cell) : bool :=
  match v with
  | Some (Some s) => negb (s =? "")
  | _ => false
  end.

(** [a or b] *)
Definition py_or (a b : option Cell) : option Cell :=
  if cell_truthy a then a else b.

(** [row.get("defect_type") or row.get("DEFECT_TYPE") or row.get("DefectType")] *)
Definition defect_value (row : Dict) : option Cell :=
  py_or (py_or (dict_get "defect_type" row) (dict_get "DEFECT_TYPE" row))
        (dict_get "DefectType" row).

(** The loop [for row in defect_rows: ... if value: defect_types.append(value)] *)
Fixpoint defect_types_of (rows : list Dict) : list string :=
  match rows with
  | [] => []
  | row :: rest =>
      let value := defect_value row in
      if cell_truthy value then
        match value with
        | Some (Some s) => s :: defect_types_of rest
        | _ => defect_types_of rest
        end
      else defect_types_of rest
  end.

Definition defect_query : string :=
  nl ++ ind12 ++ "SELECT DISTINCT defect_type"
  ++ nl ++ ind12 ++ "FROM " ++ inspections_name
  ++ nl ++ ind12 ++ "WHERE defect_type IS NOT NULL"
  ++ nl ++ ind12 ++ "ORDER BY defect_type"
  ++ nl ++ ind8.

Inductive Response :=
| OK (defect_types : list string)
| HTTPException (status_code : Z).

(** [get_filter_options()] *)
Definition get_filter_options (wd : World) (st : State) : Response * State :=
  match query wd defect_query st with
  | (inl defect_rows, st') => (OK (defect_types_of defect_rows), st')
  | (inr _, st') => (HTTPException 500, st')
  end.

End FilterOptions.

(** ** App1: what [main] does with the loaded page *)

Module Page.



(** [None if selected == "All" else selected] *)
Definition convert (selected : string) : option string :=
  if selected =? "All" then None else Some selected.

(** The filter set [main] passes to [load_inspections] for the sidebar
    selections; the search box gives [None] when empty, the date inputs
    give [None] when unset. *)
Definition filters_of_sidebar (selected_factory selected_camera
                               selected_prediction selected_defect
                               search_query : string)
           (date_from date_to : option string) : FilterSet :=
  mkFilters None (convert selected_factory) (convert selected_camera)
            (convert selected_prediction) (convert selected_defect)
            (if search_query =? "" then None else Some search_query)
            date_from date_to.

End Page.

(** * Further properties *)

(** ** The three queries on a store that answers *)

Lemma valid_page_request_bounds page per_page :
  App2.valid_page_request page per_page = true ->
  (1 <= page)%Z /\ (1 <= per_page <= 100)%Z.
Proof.
  unfold App2.valid_page_request. rewrite !andb_true_iff.
  intros [[H1 H2] H3]. apply Z.leb_le in H1, H2, H3. lia.
Qed.

Lemma App2_try_block_no_region w f page per_page :
  truthy (region f) = false ->
  App2.try_block w f page per_page
  = query_block w (where_clauses f) (App2.stats_query (where_clauses f))
                page per_page.
Proof.
  intros Hr. unfold App2.try_block, App2.choose_stats_query.
  destruct (region f); [rewrite Hr|]; reflexivity.
Qed.

Lemma filter_true {A} (p : A -> bool) l :
  (forall x, p x = true) -> filter p l = l.
Proof.
  intros H. induction l as [|x l IH]; simpl; [reflexivity|].
  rewrite H, IH. reflexivity.
Qed.

Lemma selected_no_clause w : selected w [] = inspections_table w.
Proof. unfold selected. apply filter_true. reflexivity. Qed.

(** The answer to a statistics statement that carries the WHERE text
    alone, whichever app wrote it. *)
Lemma stats_answer w cs txt txt' :
  answers w (mkStatement txt (StatsQuery cs)) ->
  Warehouse_query w (mkStatement txt' (StatsQuery cs))
  = Some [stats_row (selected w cs)].
Proof.
  intros [rows H]. unfold Warehouse_query in *. simpl in *.
  destruct (fails w (StatsQuery cs) || false); [discriminate H|reflexivity].
Qed.

(** X3. With no filter present and a table that is not empty, a valid
    page request whose three statements the store answers gets an
    envelope whose [total_count], [stats.filtered] and [stats.total] are
    all the number of records of the table. *)
Theorem no_filter_counts_the_table :
  forall w f page per_page,
    all_absent f ->
    App2.valid_page_request page per_page = true ->
    inspections_table w <> [] ->
    answers w (count_query (where_clauses f)) ->
    answers w (data_query (where_clauses f) per_page ((page - 1) * per_page)) ->
    answers w (App2.stats_query (where_clauses f)) ->
    exists e,
      App2.get_inspections w f page per_page = App2.OK e /\
      p_total_count (pagination e) = Z.of_nat (List.length (inspections_table w)) /\
      s_filtered (stats e) = Z.of_nat (List.length (inspections_table w)) /\
      s_total (stats e) = Z.of_nat (List.length (inspections_table w)).
Proof.
  intros w f page per_page [Hr Hcs] Hv Hne Hc Hd Hs.
  destruct (valid_page_request_bounds _ _ Hv) as [Hp Hpp].
  unfold App2.get_inspections. rewrite Hv.
  rewrite (App2_try_block_no_region _ _ _ _ Hr).
  rewrite (query_block_answered w f _ page per_page (selected w (where_clauses f)));
    auto; try lia.
  - eexists. split; [reflexivity|].
    unfold page_envelope, matched_count. simpl.
    rewrite Hcs, selected_no_clause. auto.
  - eapply stats_answer. exact Hs.
  - rewrite Hcs, selected_no_clause. exact Hne.
Qed.

Lemma no_filter_counts_the_table_witness :
  exists e,
    App2.get_inspections sample_store no_filters 1 8 = App2.OK e /\
    p_total_count (pagination e) = 3%Z /\
    s_filtered (stats e) = 3%Z /\ s_total (stats e) = 3%Z.
Proof.
  apply (no_filter_counts_the_table sample_store no_filters 1%Z 8%Z).
  - split; reflexivity.
  - reflexivity.
  - discriminate.
  - eexists. reflexivity.
  - eexists. reflexivity.
  - eexists. reflexivity.
Defined.

Lemma query_block_empty w cs sq page per_page :
  answers w (count_query cs) ->
  answers w (data_query cs per_page ((page - 1) * per_page)) ->
  Warehouse_query w sq = Some [stats_row []] ->
  per_page <> 0%Z ->
  query_block w cs sq page per_page = inr TypeError.
Proof.
  intros [r1 H1] [r2 H2] H3 Hpp.
  unfold query_block, query. rewrite H1, H2, H3. simpl.
  unfold Warehouse_query in H1. simpl in H1.
  match type of H1 with (if ?b then _ else _) = _ =>
    destruct b; [discriminate|] end.
  injection H1 as <-. simpl.
  unfold package, total_pages, py_floordiv.
  apply Z.eqb_neq in Hpp. rewrite Hpp. reflexivity.
Qed.

(** X4. When the store answers the three statements of a request and
    selects no record for its WHERE text (no region given), the two sums
    of the statistics statement are NULL, [int(None)] raises, and the
    request fails as a whole: [get_inspections] answers 500 and
    [load_inspections] returns its fallback envelope, which reports page
    1 whatever page was asked. *)
Theorem empty_result_is_an_error :
  forall w f page per_page,
    truthy (region f) = false ->
    App2.valid_page_request page per_page = true ->
    answers w (count_query (where_clauses f)) ->
    answers w (data_query (where_clauses f) per_page ((page - 1) * per_page)) ->
    answers w (App2.stats_query (where_clauses f)) ->
    selected w (where_clauses f) = [] ->
    App2.get_inspections w f page per_page = App2.HTTPException 500 /\
    App1.load_inspections w f page per_page = App1.fallback per_page.
Proof.
  intros w f page per_page Hr Hv Hc Hd Hs Hnil.
  destruct (valid_page_request_bounds _ _ Hv) as [Hp Hpp].
  split.
  - unfold App2.get_inspections. rewrite Hv.
    rewrite (App2_try_block_no_region _ _ _ _ Hr).
    rewrite query_block_empty; auto; [|lia].
    rewrite <- Hnil. eapply stats_answer. exact Hs.
  - unfold App1.load_inspections, App1.try_block.
    rewrite query_block_empty; auto; [|lia].
    rewrite <- Hnil. eapply stats_answer. exact Hs.
Qed.

Lemma empty_result_is_an_error_witness :
  App2.get_inspections sample_store (only_factory "ASIA-9") 1 8
  = App2.HTTPException 500 /\
  App1.load_inspections sample_store (only_factory "ASIA-9") 1 8
  = App1.fallback 8.
Proof.
  apply (empty_result_is_an_error sample_store (only_factory "ASIA-9") 1%Z 8%Z);
    try reflexivity; eexists; reflexivity.
Defined.

(** ** Paging through *)

Lemma firstn_add {A} a b (l : list A) :
  firstn (a + b) l = (firstn a l ++ firstn b (skipn a l))%list.
Proof.
  revert l. induction a as [|a IH]; intros l; [reflexivity|].
  destruct l as [|x l]; simpl.
  - destruct b; reflexivity.
  - rewrite IH. reflexivity.
Qed.

Lemma concat_chunks {A} n m (l : list A) :
  List.concat (map (fun k => firstn n (skipn (k * n) l)) (seq 0 m))
  = firstn (m * n) l.
Proof.
  induction m as [|m IH]; [reflexivity|].
  rewrite seq_S, map_app, concat_app, IH. simpl.
  rewrite app_nil_r, <- firstn_add. f_equal. lia.
Qed.

Lemma page_rows_chunk w cs k per_page :
  (0 <= per_page)%Z ->
  page_rows w cs (Z.of_nat (S k)) per_page
  = firstn (Z.to_nat per_page)
      (skipn (k * Z.to_nat per_page)
         (order_by_timestamp_desc (selected w cs))).
Proof.
  intros Hpp. unfold page_rows. do 2 f_equal. nia.
Qed.

(** All records the store selects for the clause, most recent first. *)
Definition listing (w : Warehouse) (cs : list Clause) : list Inspection :=
  map format_record (order_by_timestamp_desc (selected w cs)).

(** The number of pages of a request. *)
Definition page_count (w : Warehouse) (cs : list Clause) (per_page : Z) : nat :=
  Z.to_nat ((matched_count w cs + per_page - 1) / per_page).

Lemma page_rows_cover w cs per_page :
  (1 <= per_page)%Z ->
  List.concat (map (fun k => page_rows w cs (Z.of_nat (S k)) per_page)
              (seq 0 (page_count w cs per_page)))
  = order_by_timestamp_desc (selected w cs).
Proof.
  intros Hpp.
  rewrite (map_ext _ (fun k => firstn (Z.to_nat per_page)
      (skipn (k * Z.to_nat per_page)
         (order_by_timestamp_desc (selected w cs)))))
    by (intros k; apply page_rows_chunk; lia).
  rewrite concat_chunks. apply firstn_all2.
  rewrite length_order_by. unfold page_count.
  destruct (floordiv_ceiling (matched_count w cs) per_page
              (matched_count_nonneg w cs) Hpp) as [[_ Hc] _].
  pose proof (matched_count_nonneg w cs) as Hn.
  unfold matched_count in *.
  set (tp := ((Z.of_nat (List.length (selected w cs))
               + per_page - 1) / per_page)%Z) in *.
  assert (0 <= tp)%Z by (subst tp; apply Z.div_pos; lia).
  nia.
Qed.

(** X6. On a store that scans its rows in the same order for every
    statement and answers the count statement, the statistics statement
    and the page statement of every page from 1 to [total_pages],
    reading these pages with [load_inspections] and putting the slices
    end to end gives every record the store selects for the WHERE text
    exactly once, most recent first: no record is lost or repeated
    between pages. *)
Theorem pages_cover_the_listing :
  forall (w : Warehouse) (f : FilterSet) (per_page : Z),
    (1 <= per_page)%Z ->
    answers w (count_query (where_clauses f)) ->
    answers w (App1.stats_query (where_clauses f)) ->
    (forall k, (k < page_count w (where_clauses f) per_page)%nat ->
       answers w (data_query (where_clauses f) per_page
                             ((Z.of_nat (S k) - 1) * per_page))) ->
    List.concat (map (fun k => inspections
                            (App1.load_inspections w f (Z.of_nat (S k)) per_page))
                (seq 0 (page_count w (where_clauses f) per_page)))
    = listing w (where_clauses f).
Proof.
  intros w f per_page Hpp Hc Hs Hd. unfold listing.
  rewrite <- (page_rows_cover w (where_clauses f) per_page Hpp).
  rewrite concat_map, map_map. f_equal. apply map_ext_in.
  intros k Hk. apply in_seq in Hk.
  assert (Hne : selected w (where_clauses f) <> []).
  { intros Hnil. unfold page_count, matched_count in Hk. rewrite Hnil in Hk.
    simpl in Hk. rewrite Z.div_small in Hk by lia. simpl in Hk. lia. }
  unfold App1.load_inspections, App1.try_block.
  rewrite (query_block_answered w f _ (Z.of_nat (S k)) per_page
             (selected w (where_clauses f))); auto.
  - apply Hd. lia.
  - eapply stats_answer. exact Hs.
Qed.

Lemma pages_cover_the_listing_witness :
  List.concat (map (fun k => inspections
                          (App1.load_inspections sample_store no_filters
                                                 (Z.of_nat (S k)) 2))
              (seq 0 (page_count sample_store (where_clauses no_filters) 2)))
  = listing sample_store (where_clauses no_filters).
Proof.
  apply (pages_cover_the_listing sample_store no_filters 2%Z).
  - lia.
  - eexists. reflexivity.
  - eexists. reflexivity.
  - intros k Hk.
    assert (Hk' : (k < 2)%nat) by exact Hk.
    destruct k as [|[|k]]; [eexists; reflexivity | eexists; reflexivity | lia].
Defined.

(** ** The page shown by App1 *)



(** ** Lakebase: keeping and renewing the connection *)

Module LakebaseReuse.
Import Lakebase.

Ltac run_lakebase :=
  unfold query, _ensure_connection, _create_connection, close_quietly,
    try_block, except_block, cursor, execute, fetchall, commit, rollback,
    the_connection, set_connection, ltry, lbind, lret, lraise, get_state,
    put_state, emit; simpl.

Lemma fresh_not_expired wd c :
  _is_connection_expired wd (mkState c (Some (now wd))) = false.
Proof.
  unfold _is_connection_expired, _CONNECTION_TIMEOUT_MINUTES. simpl.
  apply Z.ltb_ge. lia.
Qed.

Lemma create_connection_inl wd s s' :
  _create_connection wd s = (inl tt, s') ->
  fst s' = mkState (Some (mkConnection false Idle)) (Some (now wd)).
Proof.
  unfold _create_connection, lbind, emit, put_state, lraise.
  destruct (negb (env_ok wd)); [discriminate|]. simpl.
  destruct (connect_ok wd); [|discriminate].
  intros H. injection H as <-. reflexivity.
Qed.

(** X8. Whenever [_ensure_connection] returns, the class holds a
    connection that is not expired.  If there was none, or the one held
    was older than 59 minutes, it is a new open idle connection stamped
    with the current time; otherwise nothing was touched and no call was
    made. *)
Theorem ensure_connection_postcondition :
  forall (wd : World) (st st' : State) (tr tr' : list Op),
    _ensure_connection wd (st, tr) = (inl tt, (st', tr')) ->
    _is_connection_expired wd st' = false /\
    (exists c, _connection st' = Some c) /\
    ((_connection st = None \/ _is_connection_expired wd st = true) ->
       st' = mkState (Some (mkConnection false Idle)) (Some (now wd))) /\
    ((_connection st <> None /\ _is_connection_expired wd st = false) ->
       st' = st /\ tr' = tr).
Proof.
  intros wd [[c|] ct] st' tr tr';
    unfold _ensure_connection, lbind, get_state, lret; simpl.
  - destruct (_is_connection_expired wd (mkState (Some c) ct)) eqn:E.
    + unfold close_quietly, lbind, emit, set_connection, get_state,
        put_state, lret. simpl.
      intros H.
      assert (Hst : st' = mkState (Some (mkConnection false Idle)) (Some (now wd))).
      { destruct (close_ok wd); simpl in H;
          apply create_connection_inl in H; exact H. }
      subst st'. split; [apply fresh_not_expired|].
      split; [eexists; reflexivity|]. split; [reflexivity|].
      intros [_ Hx]. discriminate Hx.
    + intros H. injection H as <- <-.
      split; [exact E|]. split; [eexists; reflexivity|]. split.
      * intros [Hx|Hx]; discriminate Hx.
      * auto.
  - intros H. apply create_connection_inl in H. simpl in H. subst st'.
    split; [apply fresh_not_expired|].
    split; [eexists; reflexivity|]. split; [reflexivity|].
    intros [Hx _]. contradiction.
Qed.

Definition ready_world : World :=
  mkWorld 100 true true true (fun _ => ResultSet [[("n", "1")]]) true true.

Lemma ensure_connection_postcondition_witness :
  _is_connection_expired ready_world
    (mkState (Some (mkConnection false Idle)) (Some 100%Z)) = false.
Proof.
  apply (ensure_connection_postcondition ready_world
           (mkState None None)
           (mkState (Some (mkConnection false Idle)) (Some 100%Z))
           [] [OpConnect]).
  reflexivity.
Defined.

(** X9. A connection that has been closed under the class (a dropped
    link) is not noticed by [_ensure_connection] while it is younger
    than 59 minutes: [query] then raises the [InterfaceError] of
    [rollback()] itself, after [cursor()] failed, runs no statement,
    does not reconnect, and leaves the class as it was, so the next call
    fails the same way. *)
Theorem closed_connection_is_kept :
  forall (wd : World) (sql : string) (st : State) (c : Connection) (tr : list Op),
    _connection st = Some c ->
    closed c = true ->
    _is_connection_expired wd st = false ->
    query wd sql (st, tr)
    = (inr InterfaceError, (st, (tr ++ [OpCursor] ++ [OpRollback])%list)).
Proof.
  intros wd sql [oc ct] c tr Hc Hclosed Hexp. simpl in Hc. subst oc.
  run_lakebase. rewrite Hexp. simpl. rewrite Hclosed. simpl.
  rewrite Hclosed. simpl. rewrite <- app_assoc. reflexivity.
Qed.

Lemma closed_connection_is_kept_witness :
  query ready_world "SELECT 1"
        (mkState (Some (mkConnection true Idle)) (Some 50%Z), [])
  = (inr InterfaceError,
     (mkState (Some (mkConnection true Idle)) (Some 50%Z),
      [OpCursor; OpRollback])).
Proof.
  apply (closed_connection_is_kept ready_world "SELECT 1"
           (mkState (Some (mkConnection true Idle)) (Some 50%Z))
           (mkConnection true Idle) []); reflexivity.
Defined.

(** X10. With an open idle connection younger than 59 minutes, a
    statement the server answers is run on that same connection: the
    calls are cursor, execute, fetchall, commit and nothing else, the
    rows are returned, and the connection time is not renewed, so the 59
    minutes run from the creation of the connection, not from its last
    use. *)
Theorem fresh_connection_is_reused :
  forall (wd : World) (sql : string) (t : Z) (tr : list Op) rows,
    _is_connection_expired wd (mkState (Some (mkConnection false Idle)) (Some t))
      = false ->
    exec_outcome wd sql = ResultSet rows ->
    commit_ok wd = true ->
    query wd sql (mkState (Some (mkConnection false Idle)) (Some t), tr)
    = (inl rows,
       (mkState (Some (mkConnection false Idle)) (Some t),
        (tr ++ [OpCursor; OpExecute sql; OpFetchall; OpCommit])%list)).
Proof.
  intros wd sql t tr rows Hexp Hrows Hcommit.
  run_lakebase. rewrite Hexp. simpl. rewrite Hrows. simpl.
  rewrite Hcommit. simpl. rewrite <- !app_assoc. reflexivity.
Qed.

Lemma fresh_connection_is_reused_witness :
  query ready_world "SELECT 1"
        (mkState (Some (mkConnection false Idle)) (Some 50%Z), [])
  = (inl [[("n", "1")]],
     (mkState (Some (mkConnection false Idle)) (Some 50%Z),
      [OpCursor; OpExecute "SELECT 1"; OpFetchall; OpCommit])).
Proof.
  apply (fresh_connection_is_reused ready_world "SELECT 1" 50%Z []);
    reflexivity.
Defined.

End LakebaseReuse.

(** ** Warehouse: rows as dicts *)

Module WarehouseFacts.
Import WarehouseService.

Lemma dict_get_set_same k v d : dict_get k (dict_set k v d) = Some v.
Proof.
  induction d as [|[k' v'] d IH]; simpl.
  - rewrite String.eqb_refl. reflexivity.
  - destruct (k' =? k) eqn:E; simpl.
    + rewrite String.eqb_refl. reflexivity.
    + rewrite E. exact IH.
Qed.

Lemma dict_get_set_other k k' v d :
  k <> k' -> dict_get k' (dict_set k v d) = dict_get k' d.
Proof.
  intros Hne. induction d as [|[k0 v0] d IH]; simpl.
  - apply String.eqb_neq in Hne. rewrite Hne. reflexivity.
  - destruct (k0 =? k) eqn:E; simpl.
    + apply String.eqb_eq in E. subst k0.
      apply String.eqb_neq in Hne. rewrite Hne. reflexivity.
    + destruct (k0 =? k'); [reflexivity|exact IH].
Qed.

Lemma fill_row_spec cols :
  forall i0 row d0 d,
    NoDup cols ->
    fill_row cols i0 row d0 = Some d ->
    (forall j col, nth_error cols j = Some col ->
       exists v, nth_error row (i0 + j) = Some v /\ dict_get col d = Some v)
    /\ (forall k, ~ In k cols -> dict_get k d = dict_get k d0).
Proof.
  induction cols as [|c cols IH]; intros i0 row d0 d Hnd H; simpl in H.
  - injection H as <-. split; [|reflexivity].
    intros [|j] col Hj; discriminate Hj.
  - destruct (nth_error row i0) as [v|] eqn:Ev; [|discriminate H].
    inversion Hnd as [|? ? Hnotin Hnd']; subst.
    destruct (IH _ _ _ _ Hnd' H) as [Hcols Hother]. split.
    + intros [|j] col Hj; simpl in Hj.
      * injection Hj as <-. exists v. rewrite Nat.add_0_r. split; [exact Ev|].
        rewrite (Hother c Hnotin). apply dict_get_set_same.
      * destruct (Hcols j col Hj) as (v' & Hv' & Hget).
        exists v'. split; [|exact Hget].
        rewrite <- Hv'. f_equal. lia.
    + intros k Hk. rewrite Hother by (intros Hin; apply Hk; right; exact Hin).
      apply dict_get_set_other. intros ->. apply Hk. left. reflexivity.
Qed.

Lemma fill_row_None cols :
  forall i0 row d0,
    fill_row cols i0 row d0 = None <->
    (List.length row < i0 + List.length cols)%nat /\ cols <> [].
Proof.
  induction cols as [|c cols IH]; intros i0 row d0; simpl.
  - split; [discriminate|]. intros [_ H]. contradiction.
  - destruct (nth_error row i0) as [v|] eqn:Ev.
    + assert (i0 < List.length row)%nat by (apply nth_error_Some; congruence).
      rewrite IH. split.
      * intros [Hlt _]. split; [lia|discriminate].
      * intros [Hlt _]. split; [lia|].
        destruct cols; [simpl in *; lia|discriminate].
    + apply nth_error_None in Ev. split; [|reflexivity].
      intros _. split; [lia|discriminate].
Qed.

(** X11. For distinct column names, the dict built from a row maps each
    column name to the cell at the same position of the row and holds no
    other key.  The conversion fails (an [IndexError] in the source)
    exactly when the row has fewer cells than there are columns. *)
Theorem row_to_dict_by_position :
  forall (cols : list string) (row : list Cell),
    NoDup cols ->
    (forall d, row_to_dict cols row = Some d ->
       (forall j col, nth_error cols j = Some col ->
          exists v, nth_error row j = Some v /\ dict_get col d = Some v)
       /\ (forall k, ~ In k cols -> dict_get k d = None))
    /\ (row_to_dict cols row = None <->
        (List.length row < List.length cols)%nat).
Proof.
  intros cols row Hnd. split.
  - intros d H. destruct (fill_row_spec cols 0 row [] d Hnd H) as [H1 H2].
    split; [exact H1|]. intros k Hk. rewrite (H2 k Hk). reflexivity.
  - unfold row_to_dict. rewrite fill_row_None. simpl. split.
    + intros [H _]. exact H.
    + intros H. split; [exact H|]. destruct cols; [simpl in H; lia|discriminate].
Qed.

Lemma row_to_dict_by_position_witness :
  row_to_dict ["total"; "ok_count"] [Some "0"] = None <-> (1 < 2)%nat.
Proof.
  apply (proj2 (row_to_dict_by_position ["total"; "ok_count"] [Some "0"]
                  ltac:(repeat constructor; simpl; intuition discriminate))).
Defined.

(** X12. When [Warehouse.query] returns rows, it holds a client whose
    connection time is not older than 59 minutes, the statement went to
    the configured warehouse, and there is one dict per row of
    [data_array], in order, each the conversion of its row; a response
    without [data_array] gives the empty list. *)
Theorem warehouse_query_returns :
  forall (wd : World) (sql : string) (st st' : State) (rows : list Dict),
    query wd sql st = (inl rows, st') ->
    _client st' = true /\
    _is_connection_expired wd st' = false /\
    exists wid r,
      _warehouse_id st' = Some wid /\
      execute_statement wd wid sql = Some r /\
      match data_array r with
      | None => rows = []
      | Some data => Forall2 (fun row d => row_to_dict (columns r) row = Some d)
                             data rows
      end.
Proof.
  intros wd sql st st' rows. unfold query.
  destruct (_ensure_connection wd st) as [[[]|e] st1] eqn:Een; [|discriminate].
  assert (Hst1 : _client st1 = true /\ _is_connection_expired wd st1 = false).
  { unfold _ensure_connection in Een.
    destruct (negb (_client st) || _is_connection_expired wd st) eqn:E.
    - unfold _create_connection in Een.
      destruct (truthy (DATABRICKS_WAREHOUSE_ID wd)); [|discriminate].
      injection Een as <-. split; [reflexivity|].
      unfold _is_connection_expired, _CONNECTION_TIMEOUT_MINUTES. simpl.
      apply Z.ltb_ge. lia.
    - injection Een as <-. apply orb_false_iff in E. destruct E as [E1 E2].
      split; [destruct (_client st); [reflexivity|discriminate]|exact E2]. }
  destruct (_warehouse_id st1) as [wid|] eqn:Ewid; [|discriminate].
  destruct (execute_statement wd wid sql) as [r|] eqn:Er; [|discriminate].
  destruct (extract_rows r) as [rs|] eqn:Ex; [|discriminate].
  intros H. injection H as <- <-.
  destruct Hst1 as [Hc He]. split; [exact Hc|]. split; [exact He|].
  exists wid, r. split; [exact Ewid|]. split; [exact Er|].
  unfold extract_rows in Ex.
  destruct (data_array r) as [data|]; [|injection Ex as <-; reflexivity].
  assert (Hrows : forall data0 rs0,
            rows_of (columns r) data0 = Some rs0 ->
            Forall2 (fun row d => row_to_dict (columns r) row = Some d) data0 rs0).
  { induction data0 as [|row data0 IH]; intros rs0 H0; simpl in H0.
    - injection H0 as <-. constructor.
    - destruct (row_to_dict (columns r) row) as [d|] eqn:Ed; [|discriminate].
      destruct (rows_of (columns r) data0) as [rs1|]; [|discriminate].
      injection H0 as <-. constructor; auto. }
  destruct data as [|row more]; [injection Ex as <-; constructor|].
  apply Hrows. exact Ex.
Qed.

Definition sample_response : StatementResponse :=
  mkResponse (Some [[Some "3"]]) ["count"].

Definition sample_world : World :=
  mkWorld (Some "wh-1") 100 (fun _ _ => Some sample_response).

Lemma warehouse_query_returns_witness :
  _client (mkState true (Some "wh-1") (Some 100%Z)) = true.
Proof.
  apply (proj1 (warehouse_query_returns sample_world "SELECT COUNT(*) as count"
                  (mkState false None None)
                  (mkState true (Some "wh-1") (Some 100%Z))
                  [[("count", Some "3")]] eq_refl)).
Defined.

End WarehouseFacts.

(** ** Filter options *)

Module FilterOptionsFacts.
Import WarehouseService FilterOptions.

Lemma cell_truthy_inv v :
  cell_truthy v = true -> exists s, v = Some (Some s) /\ s <> "".
Proof.
  destruct v as [[s|]|]; simpl; try discriminate.
  intros H. exists s. split; [reflexivity|].
  apply String.eqb_neq. destruct (s =? ""); [discriminate|reflexivity].
Qed.

Lemma defect_value_source row s :
  defect_value row = Some (Some s) ->
  dict_get "defect_type" row = Some (Some s)
  \/ dict_get "DEFECT_TYPE" row = Some (Some s)
  \/ dict_get "DefectType" row = Some (Some s).
Proof.
  unfold defect_value, py_or.
  destruct (cell_truthy (dict_get "defect_type" row)); simpl.
  - destruct (cell_truthy (dict_get "defect_type" row)); auto.
  - destruct (cell_truthy (dict_get "DEFECT_TYPE" row)); auto.
Qed.

(** X13. The defect types listed by [get_filter_options] are never
    empty strings, there are at most as many as rows, each is the value
    some row holds under [defect_type], [DEFECT_TYPE] or [DefectType],
    and a row whose [defect_type] is a non-empty string contributes that
    value whatever the other two keys hold. *)
Theorem defect_types_listed :
  forall rows : list Dict,
    Forall (fun s => s <> "") (defect_types_of rows)
    /\ (List.length (defect_types_of rows) <= List.length rows)%nat
    /\ (forall s, In s (defect_types_of rows) ->
          exists row, In row rows /\
            (dict_get "defect_type" row = Some (Some s)
             \/ dict_get "DEFECT_TYPE" row = Some (Some s)
             \/ dict_get "DefectType" row = Some (Some s)))
    /\ (forall row s, In row rows ->
          dict_get "defect_type" row = Some (Some s) -> s <> "" ->
          In s (defect_types_of rows)).
Proof.
  induction rows as [|row rows (IH1 & IH2 & IH3 & IH4)]; simpl.
  - split; [constructor|]. split; [lia|]. split.
    + intros s [].
    + intros row s [].
  - destruct (cell_truthy (defect_value row)) eqn:Et.
    + destruct (cell_truthy_inv _ Et) as (s0 & Hv & Hne). rewrite Hv.
      split; [constructor; assumption|]. split; [simpl; lia|]. split.
      * intros s [<-|Hs].
        -- exists row. split; [left; reflexivity|].
           apply defect_value_source, Hv.
        -- destruct (IH3 s Hs) as (r & Hr & Hs'). exists r. split; auto.
      * intros r s [<-|Hr] Hget Hs.
        -- left. unfold defect_value, py_or in Hv. rewrite Hget in Hv.
           simpl in Hv. apply String.eqb_neq in Hs. rewrite Hs in Hv.
           simpl in Hv. rewrite Hs in Hv. simpl in Hv. congruence.
        -- right. eapply IH4; eauto.
    + split; [assumption|]. split; [lia|]. split.
      * intros s Hs. destruct (IH3 s Hs) as (r & Hr & Hs'). exists r. auto.
      * intros r s [<-|Hr] Hget Hs.
        -- unfold defect_value, py_or in Et. rewrite Hget in Et.
           simpl in Et. apply String.eqb_neq in Hs.
           repeat (rewrite Hs in Et; simpl in Et). discriminate Et.
        -- eapply IH4; eauto.
Qed.

End FilterOptionsFacts.

(** ** What the grid can show *)

Lemma display_run_image b p r :
  r = display (run (load_image b) (fresh p)) ->
  r = TimedOut \/
  exists content,
    r = Succeeded content /\ content <> [] /\
    b p = inl content /\ prefix ALLOWED_PREFIX p = true.
Proof.
  intros ->. unfold run, load_image. simpl.
  rewrite image_path_cases_eq. unfold image_path_cases.
  destruct (p =? ""); [left; reflexivity|].
  destruct (prefix ALLOWED_PREFIX p); [|left; reflexivity].
  destruct (b p) as [content|e]; [|left; reflexivity].
  destruct content as [|x rest]; [left; reflexivity|].
  right. exists (x :: rest). repeat split. discriminate.
Qed.

(** X14. In the App1 grid every slot is either empty (shown as "Image
    not available") or holds the bytes the store returned for the path
    at the same index, which are not empty and whose path lies under the
    allowed prefix.  No slot ever carries an error: a refused path, a
    failed fetch, an empty image and a time-out all look the same. *)
Theorem grid_slots_of_image_loaders :
  forall (b : BlobStore) (stalls : string -> bool)
         (paths : list string) (results : list FetchResult),
    fetchAll (load_image b) stalls paths results ->
    forall i p r,
      nth_error paths i = Some p -> nth_error results i = Some r ->
      r = TimedOut \/
      exists content,
        r = Succeeded content /\ content <> [] /\
        b p = inl content /\ prefix ALLOWED_PREFIX p = true.
Proof.
  intros b stalls paths results H i p r Hp Hr.
  pose proof (fetchAll_sound _ _ _ _ H) as HF.
  destruct (Forall2_nth_error _ _ _ _ _ _ HF Hp Hr) as [->|[_ Hd]].
  - left. reflexivity.
  - apply display_run_image. exact Hd.
Qed.

Lemma grid_slots_of_image_loaders_witness :
  Succeeded [Byte.xff; Byte.xd8] = TimedOut \/
  exists content,
    Succeeded [Byte.xff; Byte.xd8] = Succeeded content /\ content <> [] /\
    sample_blob good_path = inl content /\
    prefix ALLOWED_PREFIX good_path = true.
Proof.
  apply (grid_slots_of_image_loaders sample_blob (fun _ => false)
           [good_path; missing_path]
           [Succeeded [Byte.xff; Byte.xd8]; TimedOut] sample_run
           0%nat good_path (Succeeded [Byte.xff; Byte.xd8]));
    reflexivity.
Defined.

(** X15. In the photo gallery of [simpleApps/app_multithreading.py]
    every slot holds the bytes the store returned for the path at the
    same index, or the message of the exception the store raised for
    that path, or nothing (shown as "Timeout"); an empty image and an
    exception with an empty message are shown as "Timeout" too. *)
Theorem gallery_slots_of_photo_loaders :
  forall (b : BlobStore) (stalls : string -> bool)
         (paths : list string) (results : list FetchResult),
    fetchAll (load_photo b) stalls paths results ->
    forall i p r,
      nth_error paths i = Some p -> nth_error results i = Some r ->
      r = TimedOut
      \/ (exists content, r = Succeeded content /\ content <> [] /\
                          b p = inl content)
      \/ (exists e, r = Failed (str_exc e) /\ str_exc e <> "" /\
                    b p = inr e).
Proof.
  intros b stalls paths results H i p r Hp Hr.
  pose proof (fetchAll_sound _ _ _ _ H) as HF.
  destruct (Forall2_nth_error _ _ _ _ _ _ HF Hp Hr) as [->|[_ ->]].
  - left. reflexivity.
  - unfold run, load_photo, download, display. simpl.
    destruct (b p) as [content|e]; simpl.
    + destruct content as [|x rest]; [left; reflexivity|].
      right. left. exists (x :: rest). repeat split. discriminate.
    + destruct (str_exc e =? "") eqn:E; [left; reflexivity|].
      right. right. exists e. repeat split.
      apply String.eqb_neq. exact E.
Qed.

Lemma gallery_slots_of_photo_loaders_witness :
  TimedOut = TimedOut
  \/ (exists content, TimedOut = Succeeded content /\ content <> [] /\
                      sample_blob missing_path = inl content)
  \/ (exists e, TimedOut = Failed (str_exc e) /\ str_exc e <> "" /\
                sample_blob missing_path = inr e).
Proof.
  apply (gallery_slots_of_photo_loaders sample_blob (fun _ => false)
           [missing_path] [TimedOut]
           (fetchAll_all_timed_out (load_photo sample_blob) (fun _ => false)
                                   [missing_path])
           0%nat missing_path TimedOut); reflexivity.
Defined.
